(** * WMTP client: transport framing and protocol session

    A shallow embedding of the two classes of the browser client,
    [WMTPProtocol] (commands, the handler of inbound messages, the saved
    session) and [WMTPTransport] (connection life cycle, [send], the
    splitter of inbound chunks), together with the part of the
    JavaScript runtime they call into: [JSON.parse], [JSON.stringify],
    [String.prototype.trim], [String.prototype.split] with the pattern
    [/\}\s*\{/], [TextEncoder] and [localStorage].

    How the program is modelled:
    - a string is its list of UTF-16 code units; a value is a JSON
      value or [undefined];
    - a method is a function from the state of its object to the new
      state, the trace of what it did to the outside (console, callbacks,
      stream, storage) and a normal or exceptional completion;
    - what the browser answers (is WebTransport there, does the handshake
      succeed, does a write succeed) is a parameter of the method;
    - a callback installed by the page is recorded in the trace when it
      is invoked; it returns normally and does not touch the object.

    Layout: the runtime, the effects, the two classes, the vocabulary of
    the statements, then the theorems. *)

From Equations Require Import Equations.
From Equations.Prop Require Import Logic.
From Stdlib Require Import String Ascii NArith ZArith Bool Arith Lia List.
Import ListNotations.

#[local] Set Warnings "-register-all".

(* ===================================================================== *)
(** * JavaScript strings and values *)
(* ===================================================================== *)

Module JS.

(** A JavaScript string is a sequence of UTF-16 code units. *)
Definition code_unit := N.
Definition jsstring := list code_unit.

(** [str "abc"] is the JavaScript string with the same (ASCII) characters. *)
Definition str (s : string) : jsstring :=
  map N_of_ascii (list_ascii_of_string s).

Definition QUOTE : code_unit := 34%N.
Definition BACKSLASH : code_unit := 92%N.
Definition LBRACE : code_unit := 123%N.
Definition RBRACE : code_unit := 125%N.

(** Source text that contains double quotes is written with apostrophes:
    [json "{'a':1}"] is the seven code units of [{"a":1}]. *)
Definition json (s : string) : jsstring :=
  map (fun c => if N.eqb c 39%N then QUOTE else c) (str s).

Fixpoint jsstring_eqb (a b : jsstring) : bool :=
  match a, b with
  | [], [] => true
  | x :: a', y :: b' => N.eqb x y && jsstring_eqb a' b'
  | _, _ => false
  end.

(** Numbers are kept as exact decimals [mantissa * 10 ^ exponent10], in
    normal form (no trailing zero in the mantissa, zero is [0 * 10^0]).
    IEEE-754 rounding, overflow and the sign of zero are not represented. *)
Record jsnumber := Num { mantissa : Z; exponent10 : Z }.

(** Values that can flow through the client: the results of [JSON.parse],
    plus [undefined] (a missing property).  An object is the list of its
    own properties in creation order, each name once.  (An engine lists
    names that are array indices first; nothing below depends on the
    order in which such names are enumerated.) *)
Inductive JSValue :=
| JUndefined
| JNull
| JBool (b : bool)
| JNumber (n : jsnumber)
| JString (s : jsstring)
| JArray (items : list JSValue)
| JObject (props : list (jsstring * JSValue)).

(** ** Whitespace *)

(** The class [\s] of regular expressions, which is also what
    [String.prototype.trim] strips (WhiteSpace and LineTerminator). *)
Definition is_space (c : code_unit) : bool :=
  match c with
  | 9 | 10 | 11 | 12 | 13 | 32 | 160 | 5760
  | 8232 | 8233 | 8239 | 8287 | 12288 | 65279 => true
  | _ => (8192 <=? c) && (c <=? 8202)
  end%N.

Fixpoint skip_space (s : jsstring) : jsstring :=
  match s with
  | c :: r => if is_space c then skip_space r else s
  | [] => []
  end.

(** [text.trim()] *)
Definition trim (s : jsstring) : jsstring :=
  rev (skip_space (rev (skip_space s))).

(** ** [text.split(/\}\s*\{/)] *)

(** The pattern at the head of [s]: a closing brace, any run of [\s], an
    opening brace.  The greedy [\s*] cannot give characters back to the
    brace, so the match is unique; the result is the text after it. *)
Definition match_boundary (s : jsstring) : option jsstring :=
  match s with
  | c :: r =>
      if N.eqb c RBRACE then
        match skip_space r with
        | c' :: r' => if N.eqb c' LBRACE then Some r' else None
        | [] => None
        end
      else None
  | [] => None
  end.

(** The scan of [String.prototype.split] for a pattern that never matches
    the empty string: [cur] holds (reversed) the characters since the end
    of the last match; at each position the pattern is tried, a match
    closes the current part and the scan resumes after it. *)
Equations? split_scan (cur : jsstring) (s : jsstring) : list jsstring
  by wf (length s) lt :=
  split_scan cur [] := [rev cur];
  split_scan cur (c :: r) with inspect (match_boundary (c :: r)) := {
    | exist _ (Some r') E := rev cur :: split_scan [] r';
    | exist _ None E := split_scan (c :: cur) r }.
Proof.
  (* a match consumes at least its two braces *)
  assert (L : forall t, length (skip_space t) <= length t).
  { induction t as [|x t IH]; simpl; [lia|].
    destruct (is_space x); simpl; lia. }
  simpl in E. destruct (N.eqb c RBRACE); [|discriminate].
  specialize (L r). destruct (skip_space r) as [|c' t]; [discriminate|].
  destruct (N.eqb c' LBRACE); [|discriminate].
  inversion E; subst; simpl in *; lia.
Qed.

Definition split_boundary (s : jsstring) : list jsstring := split_scan [] s.

(** ** [JSON.parse] *)

(** JSON whitespace: tab, line feed, carriage return, space. *)
Definition is_json_ws (c : code_unit) : bool :=
  match c with 9 | 10 | 13 | 32 => true | _ => false end%N.

Fixpoint skip_json_ws (s : jsstring) : jsstring :=
  match s with
  | c :: r => if is_json_ws c then skip_json_ws r else s
  | [] => []
  end.

Definition digit_val (c : code_unit) : option N :=
  if (48 <=? c)%N && (c <=? 57)%N then Some (c - 48)%N else None.

Definition hex_val (c : code_unit) : option N :=
  if (48 <=? c)%N && (c <=? 57)%N then Some (c - 48)%N
  else if (97 <=? c)%N && (c <=? 102)%N then Some (c - 87)%N
  else if (65 <=? c)%N && (c <=? 70)%N then Some (c - 55)%N
  else None.

Definition hex4_val (h1 h2 h3 h4 : code_unit) : option code_unit :=
  match hex_val h1, hex_val h2, hex_val h3, hex_val h4 with
  | Some a, Some b, Some c, Some d => Some (((a * 16 + b) * 16 + c) * 16 + d)%N
  | _, _, _, _ => None
  end.

(** The character an escape letter stands for ([\uXXXX] apart). *)
Definition unescape (e : code_unit) : option code_unit :=
  match e with
  | 34 => Some 34 | 92 => Some 92 | 47 => Some 47
  | 98 => Some 8 | 102 => Some 12 | 110 => Some 10
  | 114 => Some 13 | 116 => Some 9
  | _ => None
  end%N.

Definition cons_fst {A B} (a : A) (r : option (list A * B)) : option (list A * B) :=
  match r with
  | Some (l, b) => Some (a :: l, b)
  | None => None
  end.

(** A string literal, after its opening quote: the decoded string and the
    text after the closing quote. *)
Fixpoint parse_string_body (s : jsstring) : option (jsstring * jsstring) :=
  match s with
  | [] => None
  | c :: r =>
      if N.eqb c QUOTE then Some ([], r)
      else if N.eqb c BACKSLASH then
        match r with
        | [] => None
        | e :: r1 =>
            if N.eqb e 117%N then
              match r1 with
              | h1 :: h2 :: h3 :: h4 :: r2 =>
                  match hex4_val h1 h2 h3 h4 with
                  | Some u => cons_fst u (parse_string_body r2)
                  | None => None
                  end
              | _ => None
              end
            else
              match unescape e with
              | Some u => cons_fst u (parse_string_body r1)
              | None => None
              end
        end
      else if (c <? 32)%N then None
      else cons_fst c (parse_string_body r)
  end.

(** A maximal run of decimal digits, as digit values. *)
Fixpoint take_digits (s : jsstring) : list N * jsstring :=
  match s with
  | c :: r =>
      match digit_val c with
      | Some d => let '(ds, rest) := take_digits r in (d :: ds, rest)
      | None => ([], s)
      end
  | [] => ([], [])
  end.

Definition digits_value (ds : list N) : N :=
  fold_left (fun acc d => acc * 10 + d)%N ds 0%N.

(** Trailing zeros of a digit string are moved into the exponent. *)
Fixpoint strip_zeros (rds : list N) (e : Z) : list N * Z :=
  match rds with
  | d :: r => if N.eqb d 0 then strip_zeros r (e + 1)%Z else (rds, e)
  | [] => ([], e)
  end.

Definition make_number (neg : bool) (ds : list N) (e : Z) : jsnumber :=
  let '(rds, e') := strip_zeros (rev ds) e in
  let m := Z.of_N (digits_value (rev rds)) in
  if Z.eqb m 0 then Num 0 0 else Num (if neg then - m else m)%Z e'.

Definition parse_exponent (s : jsstring) : option (Z * jsstring) :=
  match s with
  | c :: r =>
      if N.eqb c 101%N || N.eqb c 69%N then
        let '(neg, r1) :=
          match r with
          | sg :: r' => if N.eqb sg 45%N then (true, r')
                        else if N.eqb sg 43%N then (false, r') else (false, r)
          | [] => (false, r)
          end in
        match take_digits r1 with
        | ([], _) => None
        | (ds, rest) =>
            let v := Z.of_N (digits_value ds) in
            Some (if neg then (- v)%Z else v, rest)
        end
      else Some (0%Z, s)
  | [] => Some (0%Z, s)
  end.

Definition parse_fraction (s : jsstring) : option (list N * jsstring) :=
  match s with
  | c :: r =>
      if N.eqb c 46%N then
        match take_digits r with
        | ([], _) => None
        | (ds, rest) => Some (ds, rest)
        end
      else Some ([], s)
  | [] => Some ([], s)
  end.

(** A number literal: optional minus; zero, or a non-zero digit and more
    digits; optional fraction; optional exponent. *)
Definition parse_number (s : jsstring) : option (jsnumber * jsstring) :=
  let '(neg, s1) :=
    match s with
    | c :: r => if N.eqb c 45%N then (true, r) else (false, s)
    | [] => (false, s)
    end in
  match s1 with
  | c :: r =>
      match digit_val c with
      | Some d =>
          let '(ints, s2) :=
            if N.eqb d 0 then ([0%N], r) else take_digits s1 in
          match parse_fraction s2 with
          | Some (frac, s3) =>
              match parse_exponent s3 with
              | Some (e, s4) =>
                  Some (make_number neg (ints ++ frac)
                          (e - Z.of_nat (length frac))%Z, s4)
              | None => None
              end
          | None => None
          end
      | None => None
      end
  | [] => None
  end.

(** [expect w s]: [s] without its prefix [w]. *)
Fixpoint expect (w s : jsstring) : option jsstring :=
  match w, s with
  | [], _ => Some s
  | x :: w', y :: s' => if N.eqb x y then expect w' s' else None
  | _ :: _, [] => None
  end.

(** Defining a property again replaces its value and keeps its place. *)
Fixpoint obj_set (props : list (jsstring * JSValue)) (k : jsstring) (v : JSValue)
  : list (jsstring * JSValue) :=
  match props with
  | [] => [(k, v)]
  | (k', v') :: r =>
      if jsstring_eqb k' k then (k', v) :: r else (k', v') :: obj_set r k v
  end.

(** Recursive descent over the JSON grammar.  Every call either consumes a
    character or is followed by one that does, so [2 * length text] units
    of fuel never run out on a text of that length (see
    [JSON_parse_fuel_adequate]). *)
Fixpoint parse_value (fuel : nat) (s : jsstring) {struct fuel}
  : option (JSValue * jsstring) :=
  match fuel with
  | O => None
  | S fuel' =>
      match skip_json_ws s with
      | [] => None
      | c :: r =>
          if N.eqb c LBRACE then
            match skip_json_ws r with
            | [] => None
            | c1 :: r1 =>
                if N.eqb c1 RBRACE then Some (JObject [], r1)
                else
                  match parse_members fuel' (c1 :: r1) [] with
                  | Some (props, rest) => Some (JObject props, rest)
                  | None => None
                  end
            end
          else if N.eqb c 91%N then
            match skip_json_ws r with
            | [] => None
            | c1 :: r1 =>
                if N.eqb c1 93%N then Some (JArray [], r1)
                else
                  match parse_elements fuel' (c1 :: r1) with
                  | Some (items, rest) => Some (JArray items, rest)
                  | None => None
                  end
            end
          else if N.eqb c QUOTE then
            match parse_string_body r with
            | Some (t, rest) => Some (JString t, rest)
            | None => None
            end
          else if N.eqb c 116%N then
            option_map (fun rest => (JBool true, rest)) (expect (str "rue") r)
          else if N.eqb c 102%N then
            option_map (fun rest => (JBool false, rest)) (expect (str "alse") r)
          else if N.eqb c 110%N then
            option_map (fun rest => (JNull, rest)) (expect (str "ull") r)
          else
            match parse_number (c :: r) with
            | Some (n, rest) => Some (JNumber n, rest)
            | None => None
            end
      end
  end
with parse_elements (fuel : nat) (s : jsstring) {struct fuel}
  : option (list JSValue * jsstring) :=
  match fuel with
  | O => None
  | S fuel' =>
      match parse_value fuel' s with
      | Some (v, r) =>
          match skip_json_ws r with
          | c :: r1 =>
              if N.eqb c 44%N then cons_fst v (parse_elements fuel' r1)
              else if N.eqb c 93%N then Some ([v], r1)
              else None
          | [] => None
          end
      | None => None
      end
  end
with parse_members (fuel : nat) (s : jsstring)
       (acc : list (jsstring * JSValue)) {struct fuel}
  : option (list (jsstring * JSValue) * jsstring) :=
  match fuel with
  | O => None
  | S fuel' =>
      match skip_json_ws s with
      | c :: r =>
          if N.eqb c QUOTE then
            match parse_string_body r with
            | Some (k, r1) =>
                match skip_json_ws r1 with
                | c2 :: r2 =>
                    if N.eqb c2 58%N then
                      match parse_value fuel' r2 with
                      | Some (v, r3) =>
                          match skip_json_ws r3 with
                          | c4 :: r4 =>
                              if N.eqb c4 44%N
                              then parse_members fuel' r4 (obj_set acc k v)
                              else if N.eqb c4 RBRACE
                              then Some (obj_set acc k v, r4)
                              else None
                          | [] => None
                          end
                      | None => None
                      end
                    else None
                | [] => None
                end
            | None => None
            end
          else None
      | [] => None
      end
  end.

(** [JSON.parse(text)]: [None] stands for the [SyntaxError] it throws. *)
Definition JSON_parse (text : jsstring) : option JSValue :=
  match parse_value (2 * length text + 2) text with
  | Some (v, rest) =>
      match skip_json_ws rest with
      | [] => Some v
      | _ :: _ => None
      end
  | None => None
  end.

(** ** [JSON.stringify] *)

Definition is_high_surrogate (c : code_unit) : bool :=
  (55296 <=? c)%N && (c <=? 56319)%N.
Definition is_low_surrogate (c : code_unit) : bool :=
  (56320 <=? c)%N && (c <=? 57343)%N.

Definition hex_digit (d : N) : code_unit :=
  if (d <? 10)%N then (48 + d)%N else (87 + d)%N.

(** [\uXXXX], lower-case hexadecimal. *)
Definition unicode_escape (c : code_unit) : jsstring :=
  [BACKSLASH; 117%N;
   hex_digit (c / 4096 mod 16); hex_digit (c / 256 mod 16);
   hex_digit (c / 16 mod 16); hex_digit (c mod 16)]%N.

Definition escape_unit (c : code_unit) : jsstring :=
  if N.eqb c 8 then [BACKSLASH; 98%N]
  else if N.eqb c 9 then [BACKSLASH; 116%N]
  else if N.eqb c 10 then [BACKSLASH; 110%N]
  else if N.eqb c 12 then [BACKSLASH; 102%N]
  else if N.eqb c 13 then [BACKSLASH; 114%N]
  else if N.eqb c QUOTE then [BACKSLASH; QUOTE]
  else if N.eqb c BACKSLASH then [BACKSLASH; BACKSLASH]
  else if (c <? 32)%N then unicode_escape c
  else [c].

(** The body of a quoted string: control characters, the quote and the
    backslash are escaped, a surrogate that has no partner is written as
    [\uXXXX], everything else stands for itself. *)
Fixpoint quote_body (s : jsstring) : jsstring :=
  match s with
  | [] => []
  | c :: r =>
      if is_high_surrogate c then
        match r with
        | l :: r' =>
            if is_low_surrogate l then c :: l :: quote_body r'
            else unicode_escape c ++ quote_body r
        | [] => unicode_escape c
        end
      else if is_low_surrogate c then unicode_escape c ++ quote_body r
      else escape_unit c ++ quote_body r
  end.

Definition quote (s : jsstring) : jsstring :=
  QUOTE :: quote_body s ++ [QUOTE].

Fixpoint uint_units (u : Decimal.uint) : jsstring :=
  match u with
  | Decimal.Nil => []
  | Decimal.D0 r => 48%N :: uint_units r
  | Decimal.D1 r => 49%N :: uint_units r
  | Decimal.D2 r => 50%N :: uint_units r
  | Decimal.D3 r => 51%N :: uint_units r
  | Decimal.D4 r => 52%N :: uint_units r
  | Decimal.D5 r => 53%N :: uint_units r
  | Decimal.D6 r => 54%N :: uint_units r
  | Decimal.D7 r => 55%N :: uint_units r
  | Decimal.D8 r => 56%N :: uint_units r
  | Decimal.D9 r => 57%N :: uint_units r
  end.

Definition decimal_digits (n : N) : jsstring := uint_units (N.to_uint n).

(** [Number::toString] in radix 10, on the exact decimal: [k] digits,
    decimal point after the first [pos] of them. *)
Definition number_to_string (x : jsnumber) : jsstring :=
  let m := mantissa x in
  if Z.eqb m 0 then str "0" else
  let ds := decimal_digits (Z.abs_N m) in
  let k := Z.of_nat (length ds) in
  let pos := (k + exponent10 x)%Z in
  (if (m <? 0)%Z then str "-" else []) ++
  (if (k <=? pos)%Z && (pos <=? 21)%Z then
     ds ++ repeat 48%N (Z.to_nat (pos - k))
   else if (0 <? pos)%Z && (pos <=? 21)%Z then
     firstn (Z.to_nat pos) ds ++ str "." ++ skipn (Z.to_nat pos) ds
   else if (-6 <? pos)%Z && (pos <=? 0)%Z then
     str "0." ++ repeat 48%N (Z.to_nat (- pos)) ++ ds
   else
     let e := (pos - 1)%Z in
     let es := (if (e <? 0)%Z then str "-" else str "+")
                 ++ decimal_digits (Z.abs_N e) in
     match ds with
     | [d] => d :: str "e" ++ es
     | d :: rest => d :: str "." ++ rest ++ str "e" ++ es
     | [] => []
     end).

Fixpoint join_comma (parts : list jsstring) : jsstring :=
  match parts with
  | [] => []
  | [x] => x
  | x :: rest => x ++ 44%N :: join_comma rest
  end.

(** [JSON.stringify(v)] without replacer or indentation.  [None] is the
    result [undefined].  Inside an array [undefined] is written [null];
    a property whose value is [undefined] is left out. *)
Fixpoint JSON_stringify (v : JSValue) : option jsstring :=
  match v with
  | JUndefined => None
  | JNull => Some (str "null")
  | JBool true => Some (str "true")
  | JBool false => Some (str "false")
  | JNumber n => Some (number_to_string n)
  | JString s => Some (quote s)
  | JArray items =>
      Some (91%N ::
            join_comma
              (map (fun x => match JSON_stringify x with
                             | Some t => t
                             | None => str "null"
                             end) items)
            ++ [93%N])
  | JObject props =>
      Some (LBRACE ::
            join_comma
              (flat_map (fun kv => match JSON_stringify (snd kv) with
                                   | Some t => [quote (fst kv) ++ 58%N :: t]
                                   | None => []
                                   end) props)
            ++ [RBRACE])
  end.

(** ** [TextEncoder.encode]: UTF-8 *)

Definition REPLACEMENT : list N := [239; 191; 189]%N.

Fixpoint utf8_encode (s : jsstring) : list N :=
  match s with
  | [] => []
  | c :: r =>
      if (c <? 128)%N then c :: utf8_encode r
      else if (c <? 2048)%N then
        (192 + c / 64)%N :: (128 + c mod 64)%N :: utf8_encode r
      else if is_high_surrogate c then
        match r with
        | l :: r' =>
            if is_low_surrogate l then
              let cp := (65536 + (c - 55296) * 1024 + (l - 56320))%N in
              (240 + cp / 262144)%N :: (128 + cp / 4096 mod 64)%N ::
              (128 + cp / 64 mod 64)%N :: (128 + cp mod 64)%N :: utf8_encode r'
            else REPLACEMENT ++ utf8_encode r
        | [] => REPLACEMENT
        end
      else if is_low_surrogate c then REPLACEMENT ++ utf8_encode r
      else
        (224 + c / 4096)%N :: (128 + c / 64 mod 64)%N ::
        (128 + c mod 64)%N :: utf8_encode r
  end.

(** [encode(undefined)] encodes the default argument, the empty string. *)
Definition TextEncoder_encode (input : option jsstring) : list N :=
  match input with
  | Some s => utf8_encode s
  | None => []
  end.

(** ** Operators on values *)

(** ToBoolean, as used by [if (x)] and [!x]. *)
Definition truthy (v : JSValue) : bool :=
  match v with
  | JUndefined | JNull => false
  | JBool b => b
  | JNumber n => negb (Z.eqb (mantissa n) 0)
  | JString s => match s with [] => false | _ :: _ => true end
  | JArray _ | JObject _ => true
  end.

(** [v === 'literal'] *)
Definition is_string (v : JSValue) (lit : string) : bool :=
  match v with
  | JString s => jsstring_eqb s (str lit)
  | _ => false
  end.

Fixpoint lookup (props : list (jsstring * JSValue)) (k : jsstring) : option JSValue :=
  match props with
  | [] => None
  | (k', v) :: r => if jsstring_eqb k' k then Some v else lookup r k
  end.

(** [v.name] for a property name that no built-in prototype defines
    ([cmd], [status], [session_token], [authenticated], [email],
    [username]): an own property of an object, [undefined] on any other
    value, and a [TypeError] ([None]) on [null] and [undefined]. *)
Definition get (v : JSValue) (name : string) : option JSValue :=
  match v with
  | JUndefined | JNull => None
  | JObject props =>
      match lookup props (str name) with
      | Some x => Some x
      | None => Some JUndefined
      end
  | _ => Some JUndefined
  end.

(** ** [localStorage] *)

Definition Storage := list (jsstring * jsstring).

Fixpoint getItem (st : Storage) (k : jsstring) : option jsstring :=
  match st with
  | [] => None
  | (k', v) :: r => if jsstring_eqb k' k then Some v else getItem r k
  end.

Fixpoint removeItem (st : Storage) (k : jsstring) : Storage :=
  match st with
  | [] => []
  | (k', v) :: r =>
      if jsstring_eqb k' k then removeItem r k else (k', v) :: removeItem r k
  end.

Definition setItem (st : Storage) (k v : jsstring) : Storage :=
  (k, v) :: removeItem st k.

End JS.

(* ===================================================================== *)
(** * Effects: state, trace of observable actions, exceptions *)
(* ===================================================================== *)

Module Eff.
Import JS.

(** Stream, connection, writer and reader objects of the browser. *)
Definition Handle := nat.

Inductive Exn :=
| Error (message : string)       (* [new Error(message)] *)
| TypeError (message : string)   (* property access on [null]/[undefined] *)
| HostError (what : string).     (* raised or rejected by the browser *)

Inductive Completion (A : Type) :=
| Return (a : A)
| Throw (e : Exn).
Arguments Return {A} a.
Arguments Throw {A} e.

Inductive Level := LOG | WARN | ERROR.

Inductive Detail :=
| DNone
| DText (s : jsstring)
| DUndefined
| DExn (e : Exn).

(** The callback fields of the two classes. *)
Inductive Hook :=
| TransportOnMessage | TransportOnConnect | TransportOnDisconnect
| TransportOnError
| OnSessionInit | OnAuthSuccess | OnAuthFail | OnHeartbeat | OnResponse
| OnError.

Scheme Equality for Hook.

Inductive Arg :=
| NoArg
| Value (v : JSValue)
| Caught (e : Exn).

(** What a method does to the outside, in order. *)
Inductive Event :=
| Console (level : Level) (tag : string) (detail : Detail)
| Callback (hook : Hook) (arg : Arg)
| NewWebTransport (url : jsstring) (pinned : bool)
| StartReading
| WatchClosed (h : Handle)
| Close (h : Handle)
| StreamWrite (w : Handle) (bytes : list N)
| StorageSet (key value : jsstring)
| StorageRemove (key : jsstring).

(** A method body: from the state of [this] to the new state, the actions
    performed and the way the body completes.  An [await] is a sequence
    point; what other tasks do while the method is suspended is not part
    of the method. *)
Definition JSM (S A : Type) : Type := S -> S * list Event * Completion A.

Definition ret {S A} (a : A) : JSM S A := fun s => (s, [], Return a).

Definition throw {S A} (e : Exn) : JSM S A := fun s => (s, [], Throw e).

Definition bind {S A B} (c : JSM S A) (k : A -> JSM S B) : JSM S B :=
  fun s =>
    match c s with
    | (s1, tr1, Return a) =>
        let '(s2, tr2, r) := k a s1 in (s2, tr1 ++ tr2, r)
    | (s1, tr1, Throw e) => (s1, tr1, Throw e)
    end.

Definition try_catch {S A} (c : JSM S A) (handler : Exn -> JSM S A) : JSM S A :=
  fun s =>
    match c s with
    | (s1, tr1, Return a) => (s1, tr1, Return a)
    | (s1, tr1, Throw e) =>
        let '(s2, tr2, r) := handler e s1 in (s2, tr1 ++ tr2, r)
    end.

Definition read {S} : JSM S S := fun s => (s, [], Return s).
Definition modify {S} (f : S -> S) : JSM S unit := fun s => (f s, [], Return tt).
Definition emit {S} (e : Event) : JSM S unit := fun s => (s, [e], Return tt).

(** The outcome of an operation of the browser ([await p], a call that
    may throw). *)
Definition settle {S A} (r : Completion A) : JSM S A := fun s => (s, [], r).

Definition when {S} (b : bool) (c : JSM S unit) : JSM S unit :=
  if b then c else ret tt.

(** A method of an object held in a field of the state. *)
Definition zoom {S T A} (proj : S -> T) (put : T -> S -> S) (c : JSM T A) : JSM S A :=
  fun s => let '(t, tr, r) := c (proj s) in (put t s, tr, r).

(** The arguments of the invocations of one callback field, in order. *)
Fixpoint calls (h : Hook) (tr : list Event) : list Arg :=
  match tr with
  | [] => []
  | Callback h' a :: rest =>
      if Hook_beq h h' then a :: calls h rest else calls h rest
  | _ :: rest => calls h rest
  end.

(** The payloads written to the stream, in order. *)
Fixpoint writes (tr : list Event) : list (Handle * list N) :=
  match tr with
  | [] => []
  | StreamWrite w bytes :: rest => (w, bytes) :: writes rest
  | _ :: rest => writes rest
  end.

Definition state_of {S A} (x : S * list Event * Completion A) : S := fst (fst x).
Definition trace_of {S A} (x : S * list Event * Completion A) : list Event := snd (fst x).
Definition result_of {S A} (x : S * list Event * Completion A) : Completion A := snd x.

End Eff.

Declare Scope jsm_scope.
Delimit Scope jsm_scope with jsm.
Notation "x <- c1 ;; c2" := (Eff.bind c1 (fun x => c2))
  (at level 61, c1 at next level, right associativity) : jsm_scope.
Notation "c1 ;; c2" := (Eff.bind c1 (fun _ => c2))
  (at level 61, right associativity) : jsm_scope.

(* ===================================================================== *)
(** * class WMTPTransport *)
(* ===================================================================== *)

Module Transport.
Import JS Eff.
Local Open Scope jsm_scope.

(** The fields set by the constructor.  A callback field is [true] when
    a handler is installed; handlers are the caller's code: they are
    recorded as [Callback] actions, return normally and leave this
    object alone. *)
Record WMTPTransport := {
  transport : option Handle;
  writer : option Handle;
  reader : option Handle;
  connected : bool;
  onMessage : bool;
  onConnect : bool;
  onDisconnect : bool;
  onError : bool;
  certHash : option jsstring
}.

Definition constructor : WMTPTransport :=
  {| transport := None; writer := None; reader := None; connected := false;
     onMessage := false; onConnect := false; onDisconnect := false;
     onError := false; certHash := None |}.

Definition set_transport (x : option Handle) (t : WMTPTransport) :=
  {| transport := x; writer := writer t; reader := reader t;
     connected := connected t; onMessage := onMessage t;
     onConnect := onConnect t; onDisconnect := onDisconnect t;
     onError := onError t; certHash := certHash t |}.

Definition set_writer (x : option Handle) (t : WMTPTransport) :=
  {| transport := transport t; writer := x; reader := reader t;
     connected := connected t; onMessage := onMessage t;
     onConnect := onConnect t; onDisconnect := onDisconnect t;
     onError := onError t; certHash := certHash t |}.

Definition set_reader (x : option Handle) (t : WMTPTransport) :=
  {| transport := transport t; writer := writer t; reader := x;
     connected := connected t; onMessage := onMessage t;
     onConnect := onConnect t; onDisconnect := onDisconnect t;
     onError := onError t; certHash := certHash t |}.

Definition set_connected (x : bool) (t : WMTPTransport) :=
  {| transport := transport t; writer := writer t; reader := reader t;
     connected := x; onMessage := onMessage t;
     onConnect := onConnect t; onDisconnect := onDisconnect t;
     onError := onError t; certHash := certHash t |}.

(** [setCertificateHash(hash)] *)
Definition setCertificateHash (hash : option jsstring) : JSM WMTPTransport unit :=
  modify (fun t =>
    {| transport := transport t; writer := writer t; reader := reader t;
       connected := connected t; onMessage := onMessage t;
       onConnect := onConnect t; onDisconnect := onDisconnect t;
       onError := onError t; certHash := hash |}).

(** [if (this.certHash)] *)
Definition has_certHash (t : WMTPTransport) : bool :=
  match certHash t with
  | Some (_ :: _) => true
  | _ => false
  end.

(** What the browser answers during one [connect]. *)
Record ConnectEnv := {
  WebTransport_defined : bool;
  atob : Completion unit;
  new_WebTransport : Completion Handle;
  ready : Completion unit;
  createBidirectionalStream : Completion (Handle * Handle)
}.

(** [_handleDisconnect()] *)
Definition _handleDisconnect : JSM WMTPTransport unit :=
  modify (set_connected false) ;;
  modify (set_transport None) ;;
  modify (set_writer None) ;;
  modify (set_reader None) ;;
  t <- read ;;
  when (onDisconnect t) (emit (Callback TransportOnDisconnect NoArg)).

(** [connect(url)] *)
Definition connect (url : jsstring) (env : ConnectEnv) : JSM WMTPTransport bool :=
  try_catch
    (when (negb (WebTransport_defined env))
       (throw (Error "WebTransport is not supported. Use Chrome 97+ or Edge 97+")) ;;
     emit (Console LOG "[Transport] Connecting to" (DText url)) ;;
     t <- read ;;
     when (has_certHash t)
       (settle (atob env) ;;
        emit (Console LOG "[Transport] Using certificate hash for self-signed cert" DNone)) ;;
     emit (NewWebTransport url (has_certHash t)) ;;
     h <- settle (new_WebTransport env) ;;
     modify (set_transport (Some h)) ;;
     settle (ready env) ;;
     emit (Console LOG "[Transport] Connected!" DNone) ;;
     stream <- settle (createBidirectionalStream env) ;;
     modify (set_writer (Some (fst stream))) ;;
     modify (set_reader (Some (snd stream))) ;;
     modify (set_connected true) ;;
     emit StartReading ;;
     emit (WatchClosed h) ;;
     t <- read ;;
     when (onConnect t) (emit (Callback TransportOnConnect NoArg)) ;;
     ret true)
    (fun error =>
       emit (Console ERROR "[Transport] Connection failed:" (DExn error)) ;;
       t <- read ;;
       when (onError t) (emit (Callback TransportOnError (Caught error))) ;;
       throw error).

(** The handlers attached to [transport.closed] by [connect]. *)
Definition closed_then : JSM WMTPTransport unit :=
  emit (Console LOG "[Transport] Connection closed" DNone) ;;
  _handleDisconnect.

Definition closed_catch (err : Exn) : JSM WMTPTransport unit :=
  emit (Console ERROR "[Transport] Connection error:" (DExn err)) ;;
  _handleDisconnect.

(** [disconnect()]; [close_result] is what [transport.close()] does. *)
Definition disconnect (close_result : Completion unit) : JSM WMTPTransport unit :=
  t <- read ;;
  match transport t with
  | Some h =>
      try_catch (emit (Close h) ;; settle close_result) (fun _ => ret tt)
  | None => ret tt
  end ;;
  _handleDisconnect.

(** [send(data)]; [write_result] is what [writer.write] does. *)
Definition send (data : JSValue) (write_result : Completion unit)
  : JSM WMTPTransport unit :=
  t <- read ;;
  match connected t, writer t with
  | true, Some w =>
      let message :=
        match data with
        | JString s => Some s
        | _ => JSON_stringify data
        end in
      let encoded := TextEncoder_encode message in
      emit (StreamWrite w encoded) ;;
      settle write_result ;;
      emit (Console LOG "[Transport] Sent:"
              match message with Some m => DText m | None => DUndefined end)
  | _, _ => throw (Error "Not connected")
  end.

(** The text handed to [JSON.parse] for the part at [index] of [n]. *)
Definition rebrace (n index : nat) (part : jsstring) : jsstring :=
  let json := part in
  let json := if 0 <? index then LBRACE :: json else json in
  let json := if index <? n - 1 then json ++ [RBRACE] else json in
  json.

(** The body of [parts.forEach((part, index) => ...)]. *)
Fixpoint forEach_part {St} (n index : nat) (parts : list jsstring)
    (messages : list JSValue) : JSM St (list JSValue) :=
  match parts with
  | [] => ret messages
  | part :: rest =>
      let json := rebrace n index part in
      messages' <-
        match JSON_parse json with
        | Some v => ret (messages ++ [v])
        | None =>
            emit (Console WARN "[Transport] Parse error:" (DText json)) ;;
            ret messages
        end ;;
      forEach_part n (S index) rest messages'
  end.

(** [_parseMessages(text)] *)
Definition _parseMessages {St} (text : jsstring) : JSM St (list JSValue) :=
  let parts := split_boundary (trim text) in
  forEach_part (length parts) 0 parts [].

(** The substrings [_parseMessages] parses, in order. *)
Definition substrings (text : jsstring) : list jsstring :=
  let parts := split_boundary (trim text) in
  map (fun ip => rebrace (length parts) (fst ip) (snd ip))
      (combine (seq 0 (length parts)) parts).

(** One turn of the loop of [_startReading], for a chunk decoded to
    [message]. *)
Fixpoint forEach_onMessage (messages : list JSValue) : JSM WMTPTransport unit :=
  match messages with
  | [] => ret tt
  | msg :: rest =>
      emit (Callback TransportOnMessage (Value msg)) ;; forEach_onMessage rest
  end.

Definition on_chunk (message : jsstring) : JSM WMTPTransport unit :=
  emit (Console LOG "[Transport] Received:" (DText message)) ;;
  t <- read ;;
  when (onMessage t)
    (messages <- _parseMessages message ;; forEach_onMessage messages).

(** [isConnected()] *)
Definition isConnected (t : WMTPTransport) : bool := connected t.

End Transport.

(* ===================================================================== *)
(** * class WMTPProtocol *)
(* ===================================================================== *)

Module Protocol.
Import JS Eff.
Local Open Scope jsm_scope.

(** The session fields hold whatever the constructor or a message put
    there; a callback field is [true] when a handler is installed (see
    [Transport.WMTPTransport]). *)
Record WMTPProtocol := {
  sessionToken : JSValue;
  authenticated : JSValue;
  email : JSValue;
  username : JSValue;
  onSessionInit : bool;
  onAuthSuccess : bool;
  onAuthFail : bool;
  onHeartbeat : bool;
  onResponse : bool;
  onError : bool
}.

Definition constructor : WMTPProtocol :=
  {| sessionToken := JNull; authenticated := JBool false;
     email := JNull; username := JNull;
     onSessionInit := false; onAuthSuccess := false; onAuthFail := false;
     onHeartbeat := false; onResponse := false; onError := false |}.

Definition set_sessionToken (x : JSValue) (p : WMTPProtocol) :=
  {| sessionToken := x; authenticated := authenticated p;
     email := email p; username := username p;
     onSessionInit := onSessionInit p; onAuthSuccess := onAuthSuccess p;
     onAuthFail := onAuthFail p; onHeartbeat := onHeartbeat p;
     onResponse := onResponse p; onError := onError p |}.

Definition set_authenticated (x : JSValue) (p : WMTPProtocol) :=
  {| sessionToken := sessionToken p; authenticated := x;
     email := email p; username := username p;
     onSessionInit := onSessionInit p; onAuthSuccess := onAuthSuccess p;
     onAuthFail := onAuthFail p; onHeartbeat := onHeartbeat p;
     onResponse := onResponse p; onError := onError p |}.

Definition set_email (x : JSValue) (p : WMTPProtocol) :=
  {| sessionToken := sessionToken p; authenticated := authenticated p;
     email := x; username := username p;
     onSessionInit := onSessionInit p; onAuthSuccess := onAuthSuccess p;
     onAuthFail := onAuthFail p; onHeartbeat := onHeartbeat p;
     onResponse := onResponse p; onError := onError p |}.

Definition set_username (x : JSValue) (p : WMTPProtocol) :=
  {| sessionToken := sessionToken p; authenticated := authenticated p;
     email := email p; username := x;
     onSessionInit := onSessionInit p; onAuthSuccess := onAuthSuccess p;
     onAuthFail := onAuthFail p; onHeartbeat := onHeartbeat p;
     onResponse := onResponse p; onError := onError p |}.

(** [message.name]; on [null] and [undefined] the access throws. *)
Definition field {St} (message : JSValue) (name : string) : JSM St JSValue :=
  match get message name with
  | Some v => ret v
  | None => throw (TypeError "Cannot read properties of null or undefined")
  end.

(** [handleMessage(message)] *)
Definition handleMessage (message : JSValue) : JSM WMTPProtocol unit :=
  cmd <- field message "cmd" ;;
  if is_string cmd "HB" then
    p <- read ;;
    when (onHeartbeat p) (emit (Callback OnHeartbeat (Value message)))
  else
    (if is_string cmd "SESSION_INIT" then
       session_token <- field message "session_token" ;;
       modify (set_sessionToken session_token) ;;
       modify (set_authenticated (JBool false)) ;;
       p <- read ;;
       when (onSessionInit p) (emit (Callback OnSessionInit (Value message)))
     else if is_string cmd "AUTH_OK" then
       session_token <- field message "session_token" ;;
       modify (set_sessionToken session_token) ;;
       modify (set_authenticated (JBool true)) ;;
       message_email <- field message "email" ;;
       modify (set_email message_email) ;;
       message_username <- field message "username" ;;
       modify (set_username message_username) ;;
       p <- read ;;
       when (onAuthSuccess p) (emit (Callback OnAuthSuccess (Value message)))
     else if is_string cmd "SESSION_RESUMED" then
       session_token <- field message "session_token" ;;
       modify (set_sessionToken session_token) ;;
       message_authenticated <- field message "authenticated" ;;
       modify (set_authenticated message_authenticated) ;;
       message_email <- field message "email" ;;
       modify (set_email message_email) ;;
       message_username <- field message "username" ;;
       modify (set_username message_username) ;;
       p <- read ;;
       when (onSessionInit p) (emit (Callback OnSessionInit (Value message)))
     else if is_string cmd "LOGOUT_OK" then
       modify (set_sessionToken JNull) ;;
       modify (set_authenticated (JBool false)) ;;
       modify (set_email JNull) ;;
       modify (set_username JNull)
     else ret tt) ;;
    status <- field message "status" ;;
    p <- read ;;
    when (is_string status "ERR")
      (when (onError p) (emit (Callback OnError (Value message)))) ;;
    when (onResponse p) (emit (Callback OnResponse (Value message))).

(** [getSession()] *)
Definition getSession (p : WMTPProtocol) : JSValue :=
  JObject [(str "token", sessionToken p);
           (str "authenticated", authenticated p);
           (str "email", email p);
           (str "username", username p)].

(** [isAuthenticated()] *)
Definition isAuthenticated (p : WMTPProtocol) : JSValue := authenticated p.

(** The page holds one transport, one protocol object constructed on it,
    and the browser's [localStorage]. *)
Record Client := {
  wmtpTransport : Transport.WMTPTransport;
  wmtpProtocol : WMTPProtocol;
  localStorage : Storage
}.

Definition this_transport {A} (c : JSM Transport.WMTPTransport A) : JSM Client A :=
  zoom wmtpTransport
    (fun t w => {| wmtpTransport := t; wmtpProtocol := wmtpProtocol w;
                   localStorage := localStorage w |}) c.

Definition this {A} (c : JSM WMTPProtocol A) : JSM Client A :=
  zoom wmtpProtocol
    (fun p w => {| wmtpTransport := wmtpTransport w; wmtpProtocol := p;
                   localStorage := localStorage w |}) c.

Definition storage {A} (c : JSM Storage A) : JSM Client A :=
  zoom localStorage
    (fun st w => {| wmtpTransport := wmtpTransport w;
                    wmtpProtocol := wmtpProtocol w; localStorage := st |}) c.

(** [send(command)]: [await this.transport.send(command)] *)
Definition send (command : JSValue) (write_result : Completion unit)
  : JSM Client unit :=
  this_transport (Transport.send command write_result).

Definition request (cmd : string) : JSValue :=
  JObject [(str "cmd", JString (str cmd))].

Definition request_with (cmd : string) (key : string) (v : JSValue) : JSValue :=
  JObject [(str "cmd", JString (str cmd)); (str "data", JObject [(str key, v)])].

Definition init := send (request "INIT").
Definition auth (email : JSValue) := send (request_with "AUTH" "email" email).
Definition resume (token : JSValue) := send (request_with "RESUME" "token" token).
Definition ping := send (request "PING").
Definition status := send (request "STATUS").
Definition info := send (request "INFO").

(** [logout()] *)
Definition logout (write_result : Completion unit) : JSM Client unit :=
  p <- this read ;;
  result <- send (request_with "LOGOUT" "token" (sessionToken p)) write_result ;;
  this (modify (set_sessionToken JNull)) ;;
  this (modify (set_authenticated (JBool false))) ;;
  this (modify (set_email JNull)) ;;
  this (modify (set_username JNull)) ;;
  ret result.

Definition SESSION_KEY : jsstring := str "wmtp_session".

(** The object literal written by [saveSession]. *)
Definition session_record (p : WMTPProtocol) : JSValue :=
  JObject [(str "token", sessionToken p);
           (str "email", email p);
           (str "username", username p)].

(** [saveSession()] *)
Definition saveSession : JSM Client unit :=
  p <- this read ;;
  when (truthy (sessionToken p))
    (let text :=
       match JSON_stringify (session_record p) with
       | Some t => t
       | None => str "undefined"
       end in
     storage (modify (fun st => setItem st SESSION_KEY text)) ;;
     emit (StorageSet SESSION_KEY text)).

(** [loadSession()]; the result [null] is [JNull]. *)
Definition loadSession : JSM Client JSValue :=
  st <- storage read ;;
  match getItem st SESSION_KEY with
  | Some (c :: saved) =>
      match JSON_parse (c :: saved) with
      | Some v => ret v
      | None => ret JNull
      end
  | _ => ret JNull
  end.

(** [clearSession()] *)
Definition clearSession : JSM Client unit :=
  storage (modify (fun st => removeItem st SESSION_KEY)) ;;
  emit (StorageRemove SESSION_KEY).

End Protocol.

(* ===================================================================== *)
(** * The read loop *)
(* ===================================================================== *)

Module ReadLoop.
Import JS Eff Transport.
Local Open Scope jsm_scope.

(** What [await this.reader.read()] settles to: a chunk, given by the
    text the decoder makes of it; the end of the stream; a rejection.  A
    read that is not [done] carries a byte array, which is truthy. *)
Inductive ReadResult :=
| Chunk (message : jsstring)
| Done
| Rejected (error : Exn).

(** One [read()]: whether [_handleDisconnect] runs, in [disconnect] or
    in a handler of [transport.closed], while the loop waits for the
    read, and what the read settles to. *)
Record Read := {
  torn_down : bool;
  settled : ReadResult
}.

Section Loop.
Context {St : Type}.

(** The transport within the state, and the function held in its
    [onMessage] field. *)
Variable self : St -> WMTPTransport.
Variable put : WMTPTransport -> St -> St.
Variable handler : JSValue -> JSM St unit.

(** [messages.forEach(msg => this.onMessage(msg))] *)
Fixpoint forEach_message (messages : list JSValue) : JSM St unit :=
  match messages with
  | [] => ret tt
  | msg :: rest => handler msg ;; forEach_message rest
  end.

(** The body of [if (value)]. *)
Definition on_value (message : jsstring) : JSM St unit :=
  emit (Console LOG "[Transport] Received:" (DText message)) ;;
  s <- read ;;
  when (onMessage (self s))
    (messages <- _parseMessages message ;; forEach_message messages).

(** The [while] loop.  When no read is left the loop waits: nothing
    more happens. *)
Fixpoint reading (reads : list Read) : JSM St unit :=
  s <- read ;;
  if connected (self s) then
    match reader (self s) with
    | None => throw (TypeError "Cannot read properties of null or undefined")
    | Some _ =>
        match reads with
        | [] => ret tt
        | r :: rest =>
            when (torn_down r) (zoom self put _handleDisconnect) ;;
            match settled r with
            | Rejected error => throw error
            | Done => emit (Console LOG "[Transport] Stream ended" DNone)
            | Chunk message => on_value message ;; reading rest
            end
        end
    end
  else ret tt.

(** [_startReading()]; nobody awaits the promise it returns. *)
Definition _startReading (reads : list Read) : JSM St unit :=
  try_catch (reading reads)
    (fun error =>
       s <- read ;;
       when (connected (self s))
         (emit (Console ERROR "[Transport] Read error:" (DExn error)))).

End Loop.

(** The loop of a transport on its own: the function in [onMessage] is
    the caller's, recorded as a [Callback]. *)
Definition notify (msg : JSValue) : JSM WMTPTransport unit :=
  emit (Callback TransportOnMessage (Value msg)).

Definition standalone (reads : list Read) : JSM WMTPTransport unit :=
  _startReading (fun t => t) (fun t _ => t) notify reads.

End ReadLoop.

(* ===================================================================== *)
(** * The [closed] promise *)
(* ===================================================================== *)

Module Closing.
Import JS Eff Transport.
Local Open Scope jsm_scope.

(** The transport object, and the connections on whose [closed] promise
    [connect] has put its two handlers and which has not settled yet. *)
Record World := {
  the_transport : WMTPTransport;
  watching : list Handle
}.

(** How a [closed] promise settles. *)
Inductive Settled :=
| Fulfilled
| RejectedWith (err : Exn).

(** [closed.then(...).catch(...)]: the one of the two handlers that
    runs when the promise settles. *)
Definition on_closed (how : Settled) : JSM WMTPTransport unit :=
  match how with
  | Fulfilled => closed_then
  | RejectedWith err => closed_catch err
  end.

Definition on_transport {A} (c : JSM WMTPTransport A) : JSM World A :=
  zoom the_transport
    (fun t w => {| the_transport := t; watching := watching w |}) c.

Definition watch (h : Handle) (w : World) : World :=
  {| the_transport := the_transport w; watching := h :: watching w |}.

Definition unwatch (h : Handle) (w : World) : World :=
  {| the_transport := the_transport w;
     watching := filter (fun h' => negb (Nat.eqb h h')) (watching w) |}.

Definition is_watching (h : Handle) (w : World) : bool :=
  existsb (Nat.eqb h) (watching w).

(** The [closed] promise of [h] settles, because the server closed the
    connection or because [close()] was called on it: the handlers put
    on it run, once. *)
Definition closed_settles (how : Settled) (h : Handle) : JSM World unit :=
  w <- read ;;
  when (is_watching h w)
    (modify (unwatch h) ;; on_transport (on_closed how)).

(** What the actions of a method set off: [connect] puts the handlers
    on the connection it watches, and [close()] on a connection settles
    its [closed] promise. *)
Fixpoint follow (how : Settled) (tr : list Event) : JSM World unit :=
  match tr with
  | [] => ret tt
  | WatchClosed h :: rest => modify (watch h) ;; follow how rest
  | Close h :: rest => closed_settles how h ;; follow how rest
  | _ :: rest => follow how rest
  end.

(** A method of the transport, then what its actions set off: the
    handlers of a promise run after the code that settled it has
    returned or is suspended. *)
Definition in_world {A} (how : Settled) (method : JSM WMTPTransport A)
  : JSM World A :=
  fun w =>
    let '(t, tr, r) := method (the_transport w) in
    let '(w', tr', _) :=
      follow how tr {| the_transport := t; watching := watching w |} in
    (w', tr ++ tr', r).

(** A transport just constructed or torn down: nothing is watched. *)
Definition fresh (t : WMTPTransport) : World :=
  {| the_transport := t; watching := [] |}.

End Closing.

(* ===================================================================== *)
(** * The page *)
(* ===================================================================== *)

Module Page.
Import JS Eff Protocol.
Local Open Scope jsm_scope.

Definition put_transport (t : Transport.WMTPTransport) (w : Client) : Client :=
  {| wmtpTransport := t; wmtpProtocol := wmtpProtocol w;
     localStorage := localStorage w |}.

Section Handlers.

(** The functions held in the callback fields of [wmtpProtocol]:
    [this.onX(message)] is [call X message]. *)
Variable call : Hook -> JSValue -> JSM Client unit.

(** [handleMessage(message)] of [wmtpProtocol], with its callbacks
    called. *)
Definition handleMessage (message : JSValue) : JSM Client unit :=
  cmd <- field message "cmd" ;;
  if is_string cmd "HB" then
    c <- read ;;
    when (onHeartbeat (wmtpProtocol c)) (call OnHeartbeat message)
  else
    (if is_string cmd "SESSION_INIT" then
       session_token <- field message "session_token" ;;
       this (modify (set_sessionToken session_token)) ;;
       this (modify (set_authenticated (JBool false))) ;;
       c <- read ;;
       when (onSessionInit (wmtpProtocol c)) (call OnSessionInit message)
     else if is_string cmd "AUTH_OK" then
       session_token <- field message "session_token" ;;
       this (modify (set_sessionToken session_token)) ;;
       this (modify (set_authenticated (JBool true))) ;;
       message_email <- field message "email" ;;
       this (modify (set_email message_email)) ;;
       message_username <- field message "username" ;;
       this (modify (set_username message_username)) ;;
       c <- read ;;
       when (onAuthSuccess (wmtpProtocol c)) (call OnAuthSuccess message)
     else if is_string cmd "SESSION_RESUMED" then
       session_token <- field message "session_token" ;;
       this (modify (set_sessionToken session_token)) ;;
       message_authenticated <- field message "authenticated" ;;
       this (modify (set_authenticated message_authenticated)) ;;
       message_email <- field message "email" ;;
       this (modify (set_email message_email)) ;;
       message_username <- field message "username" ;;
       this (modify (set_username message_username)) ;;
       c <- read ;;
       when (onSessionInit (wmtpProtocol c)) (call OnSessionInit message)
     else if is_string cmd "LOGOUT_OK" then
       this (modify (set_sessionToken JNull)) ;;
       this (modify (set_authenticated (JBool false))) ;;
       this (modify (set_email JNull)) ;;
       this (modify (set_username JNull))
     else ret tt) ;;
    status <- field message "status" ;;
    c <- read ;;
    when (is_string status "ERR")
      (when (onError (wmtpProtocol c)) (call OnError message)) ;;
    c <- read ;;
    when (onResponse (wmtpProtocol c)) (call OnResponse message).

End Handlers.

(** A callback about which nothing is known: the call is recorded. *)
Definition recorded (hook : Hook) (msg : JSValue) : JSM Client unit :=
  emit (Callback hook (Value msg)).

(** The functions the page puts in [onSessionInit], [onAuthSuccess],
    [onHeartbeat], [onResponse] and [onError] of [wmtpProtocol].  Their
    [log] and [updateUserInfo] write to the document only, so a call is
    recorded as a [Callback]; [onAuthSuccess] goes on to call
    [saveSession]. *)
Definition installed (hook : Hook) (msg : JSValue) : JSM Client unit :=
  emit (Callback hook (Value msg)) ;;
  match hook with
  | OnAuthSuccess => saveSession
  | _ => ret tt
  end.

(** [wmtpTransport.onMessage = (message) => { wmtpProtocol.handleMessage(message); }] *)
Definition onMessage (message : JSValue) : JSM Client unit :=
  handleMessage installed message.

(** The read loop of the page's transport. *)
Definition _startReading (reads : list ReadLoop.Read) : JSM Client unit :=
  ReadLoop._startReading wmtpTransport put_transport onMessage reads.

(** The click handler of the logout button; its [log] and
    [updateUserInfo] write to the document only. *)
Definition logoutBtn_click (write_result : Completion unit) : JSM Client unit :=
  logout write_result ;;
  clearSession.

End Page.

(* ===================================================================== *)
(** * Vocabulary of the statements *)
(* ===================================================================== *)

Module SessionSpec.
Import JS Eff Protocol.

(** The value of [message.name] for an object with properties [props]. *)
Definition prop (props : list (jsstring * JSValue)) (name : string) : JSValue :=
  match lookup props (str name) with
  | Some x => x
  | None => JUndefined
  end.

(** What [if (this.onX) this.onX(message)] does. *)
Definition notified (installed : bool) (message : JSValue) : list Arg :=
  if installed then [Value message] else [].

(** The session holds a token: a non-empty string. *)
Definition token_present (v : JSValue) : bool :=
  match v with
  | JString (_ :: _) => true
  | _ => false
  end.

(** The session invariant: when [authenticated] holds a token is
    present.  [authenticated] holds when the field is truthy, which is
    how the page reads it ([session.authenticated && ...]); a field
    that is [true], or [== true], is truthy. *)
Definition session_invariant (p : WMTPProtocol) : Prop :=
  truthy (authenticated p) = true -> token_present (sessionToken p) = true.

(** The messages that make [authenticated] hold carry a token. *)
Definition supplies_token (message : JSValue) : Prop :=
  forall cmd,
    get message "cmd" = Some cmd ->
    is_string cmd "AUTH_OK" = true \/
    (is_string cmd "SESSION_RESUMED" = true /\
     exists a, get message "authenticated" = Some a /\ truthy a = true) ->
    exists tok,
      get message "session_token" = Some tok /\ token_present tok = true.

(** The values a session field holds in the data model: a string or
    [null]. *)
Definition storable (v : JSValue) : bool :=
  match v with
  | JNull | JString _ => true
  | _ => false
  end.

(** [t] is read back as [v], whatever follows. *)
Definition parses_as (t : jsstring) (v : JSValue) : Prop :=
  forall f rest, parse_value (S f) (t ++ rest) = Some (v, rest).

(** ** Concrete sessions and messages *)

Definition signed_in : WMTPProtocol :=
  {| sessionToken := JString (str "OLD"); authenticated := JBool true;
     email := JString (str "a@b.com"); username := JString (str "a");
     onSessionInit := true; onAuthSuccess := true; onAuthFail := false;
     onHeartbeat := true; onResponse := true; onError := true |}.

Definition session_init_X : list (jsstring * JSValue) :=
  [(str "status", JString (str "OK")); (str "cmd", JString (str "SESSION_INIT"));
   (str "session_token", JString (str "X")); (str "authenticated", JBool false)].

Definition auth_ok_full : JSValue :=
  JObject [(str "status", JString (str "OK")); (str "cmd", JString (str "AUTH_OK"));
           (str "session_token", JString (str "T"));
           (str "authenticated", JBool true);
           (str "email", JString (str "user@example.com"));
           (str "username", JString (str "user"))].

Definition auth_ok_without_token : JSValue :=
  JObject [(str "status", JString (str "OK")); (str "cmd", JString (str "AUTH_OK"));
           (str "authenticated", JBool true)].

Definition resumed_without_token : JSValue :=
  JObject [(str "status", JString (str "OK"));
           (str "cmd", JString (str "SESSION_RESUMED"));
           (str "authenticated", JBool true)].

Definition offline_client : Client :=
  {| wmtpTransport := Transport.constructor;
     wmtpProtocol := signed_in;
     localStorage := [] |}.

Definition saved_client : Client :=
  {| wmtpTransport := Transport.constructor;
     wmtpProtocol :=
       {| sessionToken := JString (str "T"); authenticated := JBool true;
          email := JString (str "a@b.com"); username := JString (str "a");
          onSessionInit := false; onAuthSuccess := false; onAuthFail := false;
          onHeartbeat := false; onResponse := false; onError := false |};
     localStorage := [] |}.

Definition empty_client : Client :=
  {| wmtpTransport := Transport.constructor;
     wmtpProtocol := Protocol.constructor;
     localStorage := [] |}.

Definition auth_ok_token_only : JSValue :=
  JObject [(str "status", JString (str "OK")); (str "cmd", JString (str "AUTH_OK"));
           (str "session_token", JString (str "T"))].

(** The session after an [AUTH_OK] that has a token but neither [email]
    nor [username]. *)
Definition nameless_client : Client :=
  {| wmtpTransport := Transport.constructor;
     wmtpProtocol := state_of (handleMessage auth_ok_token_only Protocol.constructor);
     localStorage := [] |}.

End SessionSpec.

Module TransportSpec.
Import JS Eff Transport.

(** [connect] gets as far as constructing the connection object. *)
Definition reaches_constructor (env : ConnectEnv) (t : WMTPTransport) : bool :=
  WebTransport_defined env &&
  (negb (has_certHash t) ||
   match atob env with Return _ => true | Throw _ => false end).

(** The first step of [connect] that fails, with its cause, in the order
    of the method: the capability check, the decoding of the certificate
    hash (when one is set), the construction of the connection object,
    the handshake, the opening of the stream. *)
Definition first_failure (env : ConnectEnv) (t : WMTPTransport) : option Exn :=
  if negb (WebTransport_defined env) then
    Some (Error "WebTransport is not supported. Use Chrome 97+ or Edge 97+")
  else
    match (if has_certHash t then atob env else Return tt) with
    | Throw e => Some e
    | Return _ =>
        match new_WebTransport env with
        | Throw e => Some e
        | Return _ =>
            match ready env with
            | Throw e => Some e
            | Return _ =>
                match createBidirectionalStream env with
                | Throw e => Some e
                | Return _ => None
                end
            end
        end
    end.

(** The messages and the diagnostics that parsing a list of substrings
    independently, in order, gives. *)
Definition parsed (subs : list jsstring) : list JSValue :=
  flat_map (fun j => match JSON_parse j with
                     | Some v => [v]
                     | None => []
                     end) subs.

Definition dropped (subs : list jsstring) : list Event :=
  flat_map (fun j => match JSON_parse j with
                     | Some _ => []
                     | None => [Console WARN "[Transport] Parse error:" (DText j)]
                     end) subs.

(** The pattern [/\}\s*\{/] matches somewhere in [s]. *)
Fixpoint has_boundary (s : jsstring) : bool :=
  match s with
  | [] => false
  | c :: r =>
      match match_boundary (c :: r) with
      | Some _ => true
      | None => has_boundary r
      end
  end.

(** The literal text [pat] occurs somewhere in [s]. *)
Fixpoint occurs (pat s : jsstring) : bool :=
  match expect pat s with
  | Some _ => true
  | None => match s with
            | [] => false
            | _ :: r => occurs pat r
            end
  end.

(** The string values of a message (not the property names). *)
Fixpoint string_values (v : JSValue) : list jsstring :=
  match v with
  | JString s => [s]
  | JArray items => flat_map string_values items
  | JObject props => flat_map (fun kv => string_values (snd kv)) props
  | _ => []
  end.

(** No string value of the message contains the two characters [}{]. *)
Definition no_brace_pair_in_values (v : JSValue) : bool :=
  forallb (fun t => negb (occurs (str "}{") t)) (string_values v).

(** ** Concrete transports *)

Definition watched : WMTPTransport :=
  {| transport := None; writer := None; reader := None; connected := false;
     onMessage := true; onConnect := true; onDisconnect := true;
     onError := true; certHash := None |}.

Definition live : WMTPTransport :=
  {| transport := Some 7; writer := Some 8; reader := Some 9; connected := true;
     onMessage := true; onConnect := true; onDisconnect := true;
     onError := true; certHash := None |}.

Definition handshake_fails : ConnectEnv :=
  {| WebTransport_defined := true;
     atob := Return tt;
     new_WebTransport := Return 7;
     ready := Throw (HostError "handshake failed");
     createBidirectionalStream := Return (8, 9) |}.

Definition stream_open_fails : ConnectEnv :=
  {| WebTransport_defined := true;
     atob := Return tt;
     new_WebTransport := Return 7;
     ready := Return tt;
     createBidirectionalStream := Throw (HostError "stream refused") |}.

Definition server_url : jsstring := str "https://localhost:4433".

End TransportSpec.

Module HandlerSpec.
Import JS Eff Protocol.

(** The callback of the transition that [cmd] selects: [onSessionInit]
    for [SESSION_INIT] and [SESSION_RESUMED], [onAuthSuccess] for
    [AUTH_OK], none for any other [cmd]; it is invoked once, with the
    message, when a handler is installed. *)
Definition transition_callback (p : WMTPProtocol) (message cmd : JSValue)
  : list Event :=
  if is_string cmd "SESSION_INIT" then
    if onSessionInit p then [Callback OnSessionInit (Value message)] else []
  else if is_string cmd "AUTH_OK" then
    if onAuthSuccess p then [Callback OnAuthSuccess (Value message)] else []
  else if is_string cmd "SESSION_RESUMED" then
    if onSessionInit p then [Callback OnSessionInit (Value message)] else []
  else [].

(** [cmd] is none of the four commands that change the session. *)
Definition unclassified (cmd : JSValue) : bool :=
  negb (is_string cmd "SESSION_INIT") && negb (is_string cmd "AUTH_OK") &&
  negb (is_string cmd "SESSION_RESUMED") && negb (is_string cmd "LOGOUT_OK").

(** ** Concrete messages *)

Definition auth_ok_denying : list (jsstring * JSValue) :=
  [(str "status", JString (str "ERR")); (str "cmd", JString (str "AUTH_OK"));
   (str "session_token", JString (str "T")); (str "authenticated", JBool false)].

Definition resumed_anonymous : list (jsstring * JSValue) :=
  [(str "status", JString (str "OK")); (str "cmd", JString (str "SESSION_RESUMED"));
   (str "session_token", JString (str "R")); (str "authenticated", JBool false)].

Definition logout_ok : list (jsstring * JSValue) :=
  [(str "status", JString (str "OK")); (str "cmd", JString (str "LOGOUT_OK"))].

End HandlerSpec.

Module WireSpec.
Import JS Eff Protocol.

(** The text of a request with one string argument. *)
Definition request_text (cmd key : string) (v : jsstring) : jsstring :=
  json "{'cmd':" ++ quote (str cmd) ++ json ",'data':{" ++
  quote (str key) ++ json ":" ++ quote v ++ json "}}".

End WireSpec.

Module FramingSpec.
Import JS Eff Transport TransportSpec.

(** A serialised object, from its opening to its closing brace. *)
Definition braced (body : jsstring) : jsstring := LBRACE :: body ++ [RBRACE].

(** Objects written one after the other, each given by the white space
    before it and by what is between its braces. *)
Definition run_of (items : list (jsstring * jsstring)) : jsstring :=
  flat_map (fun item => fst item ++ braced (snd item)) items.

(** What follows [pre] in such a run, and the pieces the split cuts
    [pre] and what follows into. *)
Fixpoint run_after (pre : jsstring) (more : list (jsstring * jsstring)) : jsstring :=
  match more with
  | [] => pre ++ [RBRACE]
  | item :: more' =>
      pre ++ RBRACE :: fst item ++ LBRACE :: run_after (snd item) more'
  end.

Fixpoint pieces (pre : jsstring) (more : list (jsstring * jsstring)) : list jsstring :=
  match more with
  | [] => [pre ++ [RBRACE]]
  | item :: more' => pre :: pieces (snd item) more'
  end.

(** White space before, no place for the pattern inside. *)
Definition well_spaced (item : jsstring * jsstring) : bool :=
  forallb is_space (fst item) && negb (has_boundary (braced (snd item))).

(** The pattern matches nowhere in [pre] followed by a closing brace. *)
Definition quiet (pre : jsstring) : Prop :=
  forall u v, pre = u ++ v -> v <> [] -> match_boundary (v ++ [RBRACE]) = None.

(** The diagnostic of [_parseMessages] about [json]. *)
Definition warning (json : jsstring) : Event :=
  Console WARN "[Transport] Parse error:" (DText json).

End FramingSpec.

Module ReadSpec.
Import JS Eff Transport TransportSpec ReadLoop.

(** The chunks the loop takes: those read up to the end of the stream,
    a rejection or a teardown; the chunk of a read during which the
    connection was torn down is the last. *)
Fixpoint heard (reads : list Read) : list jsstring :=
  match reads with
  | [] => []
  | r :: rest =>
      match settled r with
      | Chunk message => message :: (if torn_down r then [] else heard rest)
      | _ => []
      end
  end.

(** The messages of a list of chunks, each chunk framed on its own. *)
Definition delivered (chunks : list jsstring) : list Arg :=
  map Value (flat_map (fun message => parsed (substrings message)) chunks).

Definition undisturbed (reads : list Read) : bool :=
  forallb (fun r => negb (torn_down r)) reads.

(** The diagnostic of the loop about an exception. *)
Definition read_error (error : Exn) : Event :=
  Console ERROR "[Transport] Read error:" (DExn error).

Definition rejected (error : Exn) : Read :=
  {| torn_down := false; settled := Rejected error |}.

Definition chunk (text : jsstring) : Read :=
  {| torn_down := false; settled := Chunk text |}.

End ReadSpec.

Module PageSpec.
Import JS Eff Protocol.

(** The writes to the store, in order. *)
Fixpoint stores (tr : list Event) : list (jsstring * jsstring) :=
  match tr with
  | [] => []
  | StorageSet key value :: rest => (key, value) :: stores rest
  | _ :: rest => stores rest
  end.

End PageSpec.

Module LifecycleSpec.
Import JS Eff Transport.

(** The connection objects on which [close()] is called, in order. *)
Fixpoint closes (tr : list Event) : list Handle :=
  match tr with
  | [] => []
  | Close h :: rest => h :: closes rest
  | _ :: rest => closes rest
  end.

(** The connection objects constructed: the URL, and whether
    [serverCertificateHashes] is among the options. *)
Fixpoint opened (tr : list Event) : list (jsstring * bool) :=
  match tr with
  | [] => []
  | NewWebTransport url pinned :: rest => (url, pinned) :: opened rest
  | _ :: rest => opened rest
  end.

(** The read loops started and the [closed] promises watched. *)
Fixpoint started (tr : list Event) : list Event :=
  match tr with
  | [] => []
  | StartReading :: rest => StartReading :: started rest
  | WatchClosed h :: rest => WatchClosed h :: started rest
  | _ :: rest => started rest
  end.

(** A browser in which every step of [connect] succeeds. *)
Definition all_succeed : ConnectEnv :=
  {| WebTransport_defined := true;
     atob := Return tt;
     new_WebTransport := Return 17;
     ready := Return tt;
     createBidirectionalStream := Return (18, 19) |}.

Definition bad_hash : ConnectEnv :=
  {| WebTransport_defined := true;
     atob := Throw (HostError "InvalidCharacterError");
     new_WebTransport := Return 17;
     ready := Return tt;
     createBidirectionalStream := Return (18, 19) |}.

(** The same browser with another answer of [atob]. *)
Definition with_atob (decoded : Completion unit) (env : ConnectEnv) : ConnectEnv :=
  {| WebTransport_defined := WebTransport_defined env;
     atob := decoded;
     new_WebTransport := new_WebTransport env;
     ready := ready env;
     createBidirectionalStream := createBidirectionalStream env |}.

End LifecycleSpec.

(* ===================================================================== *)
(** * The runtime model on examples *)
(* ===================================================================== *)

Section RuntimeExamples.
Import JS.

Example trim_strips_both_ends :
  trim (str "  {x}  ") = str "{x}" /\ trim (9%N :: 10%N :: str "a b" ++ [13%N; 160%N]) = str "a b".
Proof. vm_compute. split; reflexivity. Qed.

Example split_three_parts :
  split_boundary (json "{'a':1} {'b':2}{}") = [json "{'a':1"; json "'b':2"; str "}"].
Proof. vm_compute. reflexivity. Qed.

Example split_without_boundary :
  split_boundary (json "{'a':{'b':[{},{}]}}") = [json "{'a':{'b':[{},{}]}}"] /\
  split_boundary [] = [[]].
Proof. vm_compute. split; reflexivity. Qed.

Example parse_response :
  JSON_parse (json " {'status':'OK', 'cmd':'STATUS', 'data':{'active_sessions':42,'version':'0.1.0'}} ") =
  Some (JObject [(str "status", JString (str "OK"));
                 (str "cmd", JString (str "STATUS"));
                 (str "data", JObject [(str "active_sessions", JNumber (Num 42 0));
                                       (str "version", JString (str "0.1.0"))])]).
Proof. vm_compute. reflexivity. Qed.

Example parse_numbers :
  JSON_parse (json "[0, -0, 10, 2.50, -3e2, 1E-3, 1732608000]") =
  Some (JArray [JNumber (Num 0 0); JNumber (Num 0 0); JNumber (Num 1 1);
                JNumber (Num 25 (-1)); JNumber (Num (-3) 2);
                JNumber (Num 1 (-3)); JNumber (Num 1732608 3)]).
Proof. vm_compute. reflexivity. Qed.

Example parse_escapes :
  JSON_parse (json "'aA\n\'\\\/'") =
  Some (JString [97; 65; 10; 34; 92; 47]%N).
Proof. vm_compute. reflexivity. Qed.

Example parse_duplicate_key :
  JSON_parse (json "{'a':1,'b':2,'a':3}") =
  Some (JObject [(str "a", JNumber (Num 3 0)); (str "b", JNumber (Num 2 0))]).
Proof. vm_compute. reflexivity. Qed.

Example parse_nested :
  JSON_parse (json "[[[[[[[[{'a':[[[[null]]]]}]]]]]]]]") =
  Some (JArray [JArray [JArray [JArray [JArray [JArray [JArray [JArray
    [JObject [(str "a", JArray [JArray [JArray [JArray [JNull]]]])]]]]]]]]]).
Proof. vm_compute. reflexivity. Qed.

Example parse_rejects :
  JSON_parse (json "{'a':'}") = None /\
  JSON_parse (json "{'}") = None /\
  JSON_parse (json "{oops}") = None /\
  JSON_parse (json "[1,]") = None /\
  JSON_parse (json "01") = None /\
  JSON_parse (json "{'a':1} x") = None /\
  JSON_parse (json "1.") = None /\
  JSON_parse [] = None /\
  JSON_parse (QUOTE :: 10%N :: [QUOTE]) = None.
Proof. vm_compute. repeat split; reflexivity. Qed.

Example stringify_values :
  JSON_stringify
    (JObject [(str "s", JString (97%N :: 10%N :: 1%N :: json "'\"));
              (str "u", JUndefined);
              (str "n", JArray [JNumber (Num 1 0); JNumber (Num 25 (-1));
                                JNumber (Num (-3) 2); JNumber (Num 1 21);
                                JNumber (Num 15 (-8)); JNumber (Num 5 (-1));
                                JUndefined]);
              (str "b", JBool true); (str "z", JNull)]) =
  Some (json "{'s':'a\n\u0001\'\\','n':[1,2.5,-300,1e+21,1.5e-7,0.5,null],'b':true,'z':null}") /\
  JSON_stringify JUndefined = None.
Proof. vm_compute. split; reflexivity. Qed.

Example utf8_examples :
  utf8_encode (str "PING") = [80; 73; 78; 71]%N /\
  utf8_encode [233%N] = [195; 169]%N /\
  utf8_encode [8364%N] = [226; 130; 172]%N /\
  utf8_encode [55357%N; 56832%N] = [240; 159; 152; 128]%N /\
  utf8_encode [55357%N; 65%N] = [239; 191; 189; 65]%N.
Proof. vm_compute. repeat split; reflexivity. Qed.

End RuntimeExamples.

(* ===================================================================== *)
(** * The parser never runs out of fuel *)
(* ===================================================================== *)

Section ParserFuel.
Import JS.

Lemma skip_json_ws_length s : length (skip_json_ws s) <= length s.
Proof.
  induction s as [|c r IH]; cbn [skip_json_ws]; [lia|].
  destruct (is_json_ws c); cbn [length] in *; lia.
Qed.

Lemma cons_fst_some {A B} (a : A) (r : option (list A * B)) l b :
  cons_fst a r = Some (l, b) -> exists l', r = Some (l', b) /\ l = a :: l'.
Proof.
  destruct r as [[l' b']|]; cbn; [|discriminate].
  intros E; inversion E; subst. eauto.
Qed.

Lemma parse_string_body_length_upto n :
  forall s t rest, length s <= n ->
    parse_string_body s = Some (t, rest) -> length rest < length s.
Proof.
  induction n as [|n IH]; intros [|c r] t rest L; cbn [length] in L;
    try lia; try (cbn [parse_string_body]; discriminate).
  cbn [parse_string_body].
  destruct (N.eqb c QUOTE).
  { intros E; inversion E; subst. cbn [length]. lia. }
  destruct (N.eqb c BACKSLASH).
  - destruct r as [|e r1]; [discriminate|].
    destruct (N.eqb e 117).
    + destruct r1 as [|h1 [|h2 [|h3 [|h4 r2]]]]; try discriminate.
      destruct (hex4_val h1 h2 h3 h4); [|discriminate].
      intros E. apply cons_fst_some in E as (l' & E & _).
      apply IH in E; cbn [length] in *; lia.
    + destruct (unescape e); [|discriminate].
      intros E. apply cons_fst_some in E as (l' & E & _).
      apply IH in E; cbn [length] in *; lia.
  - destruct (c <? 32)%N; [discriminate|].
    intros E. apply cons_fst_some in E as (l' & E & _).
    apply IH in E; cbn [length] in *; lia.
Qed.

Lemma parse_string_body_length s t rest :
  parse_string_body s = Some (t, rest) -> length rest < length s.
Proof. apply (parse_string_body_length_upto (length s)). lia. Qed.

Lemma take_digits_length s :
  length (snd (take_digits s)) <= length s.
Proof.
  induction s as [|c r IH]; cbn [take_digits]; [cbn; lia|].
  destruct (digit_val c); [|cbn; lia].
  destruct (take_digits r) as [ds rest]. cbn [snd length] in *. lia.
Qed.

Lemma parse_fraction_length s ds rest :
  parse_fraction s = Some (ds, rest) -> length rest <= length s.
Proof.
  destruct s as [|c r]; cbn [parse_fraction].
  - intros E; inversion E; subst. lia.
  - destruct (N.eqb c 46).
    + pose proof (take_digits_length r) as L.
      destruct (take_digits r) as [[|d ds'] rest']; [discriminate|].
      intros E; inversion E; subst. cbn [snd length] in *. lia.
    + intros E; inversion E; subst. lia.
Qed.

Lemma parse_exponent_length s e rest :
  parse_exponent s = Some (e, rest) -> length rest <= length s.
Proof.
  destruct s as [|c r]; cbn [parse_exponent].
  - intros E; inversion E; subst. lia.
  - destruct (N.eqb c 101 || N.eqb c 69).
    + destruct r as [|sg r']; [cbn; discriminate|].
      destruct (N.eqb sg 45); [|destruct (N.eqb sg 43)]; intros H;
        match type of H with
        | context [take_digits ?x] =>
            pose proof (take_digits_length x);
            destruct (take_digits x) as [[|d ds] rest0];
            [discriminate H|];
            inversion H; subst; cbn [snd length] in *; lia
        end.
    + intros E; inversion E; subst. lia.
Qed.

Lemma parse_number_length s n rest :
  parse_number s = Some (n, rest) -> length rest < length s.
Proof.
  unfold parse_number.
  set (sign := match s with
               | [] => (false, s)
               | c :: r => if N.eqb c 45 then (true, r) else (false, s)
               end).
  assert (Ls : length (snd sign) <= length s).
  { subst sign. destruct s as [|c r]; [cbn; lia|].
    destruct (N.eqb c 45); cbn [snd length]; lia. }
  destruct sign as [neg s1]. cbn [snd] in Ls.
  destruct s1 as [|c r]; [discriminate|].
  destruct (digit_val c) as [d|] eqn:D; [|discriminate].
  set (ints := if N.eqb d 0 then ([0%N], r) else take_digits (c :: r)).
  assert (Li : length (snd ints) <= length r).
  { subst ints. destruct (N.eqb d 0); [cbn; lia|].
    cbn [take_digits]. rewrite D.
    pose proof (take_digits_length r) as L.
    destruct (take_digits r) as [ds rest0]. cbn [snd] in *. exact L. }
  destruct ints as [is_ s2]. cbn [snd] in Li.
  destruct (parse_fraction s2) as [[frac s3]|] eqn:F; [|discriminate].
  destruct (parse_exponent s3) as [[e s4]|] eqn:X; [|discriminate].
  apply parse_fraction_length in F. apply parse_exponent_length in X.
  intros E; inversion E; subst. cbn [length] in *. lia.
Qed.

Lemma expect_length w :
  forall s rest, expect w s = Some rest -> length rest <= length s.
Proof.
  induction w as [|x w IH]; intros [|y s] rest; cbn [expect];
    try discriminate.
  - intros E; inversion E; subst. lia.
  - intros E; inversion E; subst. lia.
  - destruct (N.eqb x y); [|discriminate].
    intros E. apply IH in E. cbn [length]. lia.
Qed.

(** Splits the hypothesis along the tests the parser makes, keeping
    each outcome as an equation. *)
Ltac split_parse H :=
  repeat match type of H with
         | context [match ?x with _ => _ end] =>
             match x with
             | context [match _ with _ => _ end] => fail 1
             | _ => destruct x eqn:?; try discriminate H
             end
         | context [if ?x then _ else _] =>
             destruct x eqn:?; try discriminate H
         | context [option_map _ ?x] =>
             destruct x eqn:?; cbn [option_map] in H; try discriminate H
         | context [cons_fst _ ?x] =>
             destruct x as [[? ?]|] eqn:?; cbn [cons_fst] in H;
             try discriminate H
         end.

(** The lengths that the equations of a parse imply. *)
Ltac parse_lengths :=
  repeat match goal with
         | E : skip_json_ws ?x = _ |- _ =>
             lazymatch goal with
             | _ : length (skip_json_ws x) <= _ |- _ => fail
             | _ => pose proof (skip_json_ws_length x)
             end
         | E : parse_string_body ?x = Some _ |- _ =>
             lazymatch goal with
             | _ : parse_string_body x = Some _ -> _ |- _ => fail
             | _ => pose proof (parse_string_body_length x _ _ E);
                    pose proof (fun (u : parse_string_body x = Some (@nil code_unit, @nil code_unit)) => u)
             end
         | E : parse_number ?x = Some _ |- _ =>
             lazymatch goal with
             | _ : parse_number x = Some _ -> _ |- _ => fail
             | _ => pose proof (parse_number_length x _ _ E);
                    pose proof (fun (u : parse_number x = Some (Num 0 0, @nil code_unit)) => u)
             end
         | E : expect ?w ?x = Some _ |- _ =>
             lazymatch goal with
             | _ : expect w x = Some _ -> _ |- _ => fail
             | _ => pose proof (expect_length w x _ E);
                    pose proof (fun (u : expect w x = Some (@nil code_unit)) => u)
             end
         end;
  repeat match goal with
         | E : skip_json_ws ?x = _, F : length (skip_json_ws ?x) <= _ |- _ =>
             rewrite E in F
         end;
  cbn [length] in *.

(** A parse that succeeds with some fuel consumes at least one
    character, and succeeds with twice as much fuel as it consumes
    characters. *)
Lemma parse_fuel f :
  (forall s v rest,
     parse_value f s = Some (v, rest) ->
     length rest < length s /\
     forall g, 2 * (length s - length rest) <= g ->
               parse_value g s = Some (v, rest)) /\
  (forall s items rest,
     parse_elements f s = Some (items, rest) ->
     length rest < length s /\
     forall g, 2 * (length s - length rest) <= g ->
               parse_elements g s = Some (items, rest)) /\
  (forall s acc props rest,
     parse_members f s acc = Some (props, rest) ->
     length rest < length s /\
     forall g, 2 * (length s - length rest) <= g ->
               parse_members g s acc = Some (props, rest)).
Proof.
  induction f as [|f (IHv & IHe & IHm)].
  { repeat split; intros; discriminate. }
  split; [|split].
  - intros s v rest H. cbn [parse_value] in H. split_parse H.
    all: repeat match goal with
                | E : parse_value _ _ = Some _ |- _ =>
                    apply IHv in E; destruct E
                | E : parse_elements _ _ = Some _ |- _ =>
                    apply IHe in E; destruct E
                | E : parse_members _ _ _ = Some _ |- _ =>
                    apply IHm in E; destruct E
                end.
    all: inversion H; subst; parse_lengths.
    all: (split; [lia|]).
    all: intros g G; destruct g as [|g]; [exfalso; lia|];
         cbn [parse_value];
         repeat first
           [ match goal with
             | E : ?x = _ |- context [?x] => rewrite E
             end
           | match goal with
             | K : forall g0, _ -> _ = _ |- _ => rewrite (K g) by lia
             end ];
         cbn [option_map cons_fst]; reflexivity.
  - intros s items rest H. cbn [parse_elements] in H. split_parse H.
    all: repeat match goal with
                | E : parse_value _ _ = Some _ |- _ =>
                    apply IHv in E; destruct E
                | E : parse_elements _ _ = Some _ |- _ =>
                    apply IHe in E; destruct E
                | E : parse_members _ _ _ = Some _ |- _ =>
                    apply IHm in E; destruct E
                end.
    all: inversion H; subst; parse_lengths.
    all: (split; [lia|]).
    all: intros g G; destruct g as [|g]; [exfalso; lia|];
         cbn [parse_elements];
         repeat first
           [ match goal with
             | E : ?x = _ |- context [?x] => rewrite E
             end
           | match goal with
             | K : forall g0, _ -> _ = _ |- _ => rewrite (K g) by lia
             end ];
         cbn [option_map cons_fst]; reflexivity.
  - intros s acc props rest H. cbn [parse_members] in H. split_parse H.
    all: repeat match goal with
                | E : parse_value _ _ = Some _ |- _ =>
                    apply IHv in E; destruct E
                | E : parse_elements _ _ = Some _ |- _ =>
                    apply IHe in E; destruct E
                | E : parse_members _ _ _ = Some _ |- _ =>
                    apply IHm in E; destruct E
                end.
    all: try (inversion H; subst); parse_lengths.
    all: (split; [lia|]).
    all: intros g G; destruct g as [|g]; [exfalso; lia|];
         cbn [parse_members];
         repeat first
           [ match goal with
             | E : ?x = _ |- context [?x] => rewrite E
             end
           | match goal with
             | K : forall g0, _ -> _ = _ |- _ => rewrite (K g) by lia
             end ];
         cbn [option_map cons_fst]; reflexivity.
Qed.

(** [JSON_parse] gives itself enough fuel: whatever a parse finds with
    any amount of fuel, it finds. *)
Theorem JSON_parse_fuel_adequate f text v rest :
  parse_value f text = Some (v, rest) ->
  skip_json_ws rest = [] ->
  JSON_parse text = Some v.
Proof.
  intros H W. destruct (parse_fuel f) as (Hv & _ & _).
  destruct (Hv _ _ _ H) as [L K]. unfold JSON_parse.
  rewrite (K (2 * length text + 2)) by lia. rewrite W. reflexivity.
Qed.

End ParserFuel.

(* ===================================================================== *)
(** * Properties of the protocol session *)
(* ===================================================================== *)

Section ProtocolSession.
Import JS Eff Protocol SessionSpec.

Lemma get_object props name : get (JObject props) name = Some (prop props name).
Proof. unfold get, prop. destruct (lookup props (str name)); reflexivity. Qed.

Ltac run :=
  unfold handleMessage, field; rewrite ?get_object;
  unfold when, bind, read, modify, emit, ret, throw,
         state_of, trace_of, result_of;
  cbv beta iota.

Ltac cases :=
  repeat (cbn -[prop is_string];
          match goal with
          | |- context [if ?b then _ else _] => destruct b eqn:?
          end);
  cbn -[prop is_string].


Lemma jsstring_eqb_eq a b : jsstring_eqb a b = true <-> a = b.
Proof.
  revert b; induction a as [|x a IH]; intros [|y b]; simpl; split;
    try discriminate; try reflexivity.
  - intros H. apply andb_true_iff in H as [H1 H2].
    apply N.eqb_eq in H1. apply IH in H2. congruence.
  - intros H. inversion H; subst. rewrite N.eqb_refl. simpl. apply IH. reflexivity.
Qed.

Lemma is_string_true v lit : is_string v lit = true -> v = JString (str lit).
Proof.
  destruct v; simpl; try discriminate.
  intros H. apply jsstring_eqb_eq in H. congruence.
Qed.

(** Closes a case in which one value is two different literals. *)
Ltac clash :=
  match goal with
  | H : is_string (JString _) _ = _ |- _ => vm_compute in H; discriminate H
  end.

(** C2 (as amended).  On a message whose [cmd] is [SESSION_INIT] the
    handler stores the message's [session_token], sets [authenticated]
    to [false], invokes [onSessionInit] exactly once with the message
    (when a handler is installed), and leaves [email] and [username] as
    they were. *)
Theorem handleMessage_SESSION_INIT
    (p : WMTPProtocol) (props : list (jsstring * JSValue)) :
  is_string (prop props "cmd") "SESSION_INIT" = true ->
  let message := JObject props in
  let out := handleMessage message p in
  result_of out = Return tt /\
  sessionToken (state_of out) = prop props "session_token" /\
  authenticated (state_of out) = JBool false /\
  email (state_of out) = email p /\
  username (state_of out) = username p /\
  calls OnSessionInit (trace_of out) = notified (onSessionInit p) message.
Proof.
  intros H message out. subst out message. run.
  apply is_string_true in H. rewrite H. unfold notified.
  cases; try clash; repeat split.
Qed.

(** C1 (as amended).  [handleMessage] preserves the session invariant
    on every message that, when it is an [AUTH_OK], or a
    [SESSION_RESUMED] whose [authenticated] is [true] (or truthy),
    carries a non-empty [session_token]. *)
Theorem handleMessage_preserves_session_invariant
    (p : WMTPProtocol) (message : JSValue) :
  session_invariant p ->
  supplies_token message ->
  session_invariant (state_of (handleMessage message p)).
Proof.
  intros Hinv Hsup.
  destruct message as [| | b | n | s | items | props];
    try exact Hinv;
    try (unfold session_invariant, handleMessage, field, get in *; run;
         repeat match goal with
           | |- context [is_string JUndefined ?l] =>
               change (is_string JUndefined l) with false
           end;
         cases; exact Hinv).
  specialize (Hsup (prop props "cmd") (get_object props "cmd")).
  rewrite !get_object in Hsup.
  unfold session_invariant in *. run.
  cases; try exact Hinv; try discriminate.
  all: intros A; destruct Hsup as (tok & E & T);
    [ first [ left; reflexivity
            | right; split; [reflexivity | eexists; split; [reflexivity | exact A]] ]
    | inversion E; subst; exact T ].
Qed.

(** With a boolean flag the invariant reads: [authenticated === true]
    implies a non-empty token. *)
Lemma session_invariant_strict (p : WMTPProtocol) :
  session_invariant p ->
  authenticated p = JBool true ->
  exists c s, sessionToken p = JString (c :: s).
Proof.
  intros H A. unfold session_invariant in H. rewrite A in H.
  specialize (H eq_refl). destruct (sessionToken p) as [| | | | [|c s] | |];
    try discriminate. eauto.
Qed.

Lemma handleMessage_SESSION_INIT_witness :
  let message := JObject session_init_X in
  let out := handleMessage message Protocol.constructor in
  result_of out = Return tt /\
  sessionToken (state_of out) = JString (str "X") /\
  authenticated (state_of out) = JBool false /\
  email (state_of out) = JNull /\
  username (state_of out) = JNull /\
  calls OnSessionInit (trace_of out) = [].
Proof.
  apply (handleMessage_SESSION_INIT Protocol.constructor session_init_X).
  reflexivity.
Defined.

(** C2, counterexample.  A [SESSION_INIT] that reaches a session holding
    an email and a username leaves both in place: they do not become
    [null]. *)
Lemma SESSION_INIT_keeps_email_and_username :
  let message := JObject session_init_X in
  let out := handleMessage message signed_in in
  JSON_parse (json "{'status':'OK','cmd':'SESSION_INIT','session_token':'X','authenticated':false}")
    = Some message /\
  is_string (prop session_init_X "cmd") "SESSION_INIT" = true /\
  sessionToken (state_of out) = JString (str "X") /\
  authenticated (state_of out) = JBool false /\
  email (state_of out) = JString (str "a@b.com") /\
  username (state_of out) = JString (str "a") /\
  email (state_of out) <> JNull /\
  username (state_of out) <> JNull.
Proof.
  vm_compute. repeat split; try reflexivity; discriminate.
Qed.

Lemma handleMessage_preserves_session_invariant_witness :
  session_invariant (state_of (handleMessage auth_ok_full Protocol.constructor)).
Proof.
  apply handleMessage_preserves_session_invariant.
  - unfold session_invariant. simpl. discriminate.
  - intros cmd _ _. exists (JString (str "T")). split; reflexivity.
Defined.

(** C1, counterexample.  The constructor's session satisfies the
    invariant; an [AUTH_OK] (or a [SESSION_RESUMED] with
    [authenticated: true]) that has no [session_token] leaves
    [authenticated] set to [true] and the token [undefined]. *)
Lemma session_invariant_broken_without_token :
  session_invariant Protocol.constructor /\
  JSON_parse (json "{'status':'OK','cmd':'AUTH_OK','authenticated':true}")
    = Some auth_ok_without_token /\
  (let p' := state_of (handleMessage auth_ok_without_token Protocol.constructor) in
   authenticated p' = JBool true /\ sessionToken p' = JUndefined /\
   ~ session_invariant p') /\
  (let p' := state_of (handleMessage resumed_without_token Protocol.constructor) in
   authenticated p' = JBool true /\ sessionToken p' = JUndefined /\
   ~ session_invariant p').
Proof.
  split; [unfold session_invariant; simpl; discriminate|].
  split; [vm_compute; reflexivity|].
  split; cbv zeta; (split; [vm_compute; reflexivity|]);
    (split; [vm_compute; reflexivity|]);
    intros H; unfold session_invariant in H;
    assert (F : false = true) by (apply H; vm_compute; reflexivity);
    discriminate F.
Qed.

End ProtocolSession.

(* ===================================================================== *)
(** * Properties of commands and of the saved session *)
(* ===================================================================== *)

Section ProtocolCommands.
Import JS Eff Protocol SessionSpec.

(** *** [JSON.parse] reads back what [JSON.stringify] wrote *)

Lemma hex_val_hex_digit d : (d < 16)%N -> hex_val (hex_digit d) = Some d.
Proof.
  intros H. unfold hex_digit, hex_val.
  destruct (N.ltb_spec d 10).
  - replace ((48 <=? 48 + d)%N && (48 + d <=? 57)%N) with true.
    + f_equal. lia.
    + symmetry. apply andb_true_iff. split; apply N.leb_le; lia.
  - replace ((48 <=? 87 + d)%N && (87 + d <=? 57)%N) with false.
    + replace ((97 <=? 87 + d)%N && (87 + d <=? 102)%N) with true.
      * f_equal. lia.
      * symmetry. apply andb_true_iff. split; apply N.leb_le; lia.
    + symmetry. apply andb_false_iff. right. apply N.leb_gt. lia.
Qed.

Lemma hex4_val_unicode_escape c :
  (c < 65536)%N ->
  hex4_val (hex_digit (c / 4096 mod 16)) (hex_digit (c / 256 mod 16))
           (hex_digit (c / 16 mod 16)) (hex_digit (c mod 16)) = Some c.
Proof.
  intros H. unfold hex4_val.
  rewrite !hex_val_hex_digit by (apply N.mod_lt; discriminate).
  f_equal.
  pose proof (N.Div0.div_mod c 16) as E1.
  pose proof (N.Div0.div_mod (c / 16) 16) as E2.
  pose proof (N.Div0.div_mod (c / 256) 16) as E3.
  assert (D2 : (c / 16 / 16 = c / 256)%N) by (rewrite N.Div0.div_div; reflexivity).
  assert (D3 : (c / 256 / 16 = c / 4096)%N) by (rewrite N.Div0.div_div; reflexivity).
  assert (S4 : (c / 4096 < 16)%N) by (apply N.Div0.div_lt_upper_bound; lia).
  rewrite (N.mod_small (c / 4096) 16) by exact S4.
  rewrite D2 in E2. rewrite D3 in E3. lia.
Qed.

Lemma parse_unicode_escape c t :
  (c < 65536)%N ->
  parse_string_body (unicode_escape c ++ t) = cons_fst c (parse_string_body t).
Proof.
  intros H. unfold unicode_escape. cbn [app parse_string_body].
  change (N.eqb BACKSLASH QUOTE) with false.
  change (N.eqb BACKSLASH BACKSLASH) with true.
  change (N.eqb 117 117) with true. cbv iota.
  rewrite hex4_val_unicode_escape by exact H. reflexivity.
Qed.

Lemma parse_literal c t :
  c <> QUOTE -> c <> BACKSLASH -> (32 <= c)%N ->
  parse_string_body (c :: t) = cons_fst c (parse_string_body t).
Proof.
  intros Q B L. cbn [parse_string_body].
  destruct (N.eqb_spec c QUOTE); [contradiction|].
  destruct (N.eqb_spec c BACKSLASH); [contradiction|].
  destruct (N.ltb_spec c 32); [lia|]. reflexivity.
Qed.

Lemma parse_escape_unit c t :
  parse_string_body (escape_unit c ++ t) = cons_fst c (parse_string_body t).
Proof.
  unfold escape_unit.
  repeat match goal with
         | |- context [N.eqb c ?k] => destruct (N.eqb_spec c k); [subst; reflexivity|]
         end.
  destruct (N.ltb_spec c 32).
  - apply parse_unicode_escape. lia.
  - apply parse_literal; assumption.
Qed.

Lemma parse_quote_body_upto n :
  forall s rest, length s <= n ->
    parse_string_body (quote_body s ++ QUOTE :: rest) = Some (s, rest).
Proof.
  induction n as [|n IH]; intros [|c r] rest L; simpl in L; try lia;
    try reflexivity.
  cbn [quote_body].
  assert (Hr : parse_string_body (quote_body r ++ QUOTE :: rest) = Some (r, rest))
    by (apply IH; lia).
  destruct (is_high_surrogate c) eqn:Hh.
  - unfold is_high_surrogate in Hh. apply andb_true_iff in Hh as [H1 H2].
    apply N.leb_le in H1, H2.
    destruct r as [|l r'].
    + rewrite parse_unicode_escape by lia. reflexivity.
    + destruct (is_low_surrogate l) eqn:Hl.
      * unfold is_low_surrogate in Hl. apply andb_true_iff in Hl as [H3 H4].
        apply N.leb_le in H3, H4.
        cbn [app]. unfold QUOTE, BACKSLASH in *.
        rewrite !parse_literal by (unfold QUOTE, BACKSLASH; lia).
        rewrite IH by (simpl in L; lia). reflexivity.
      * rewrite <- app_assoc, parse_unicode_escape by lia.
        rewrite Hr. reflexivity.
  - destruct (is_low_surrogate c) eqn:Hl.
    + unfold is_low_surrogate in Hl. apply andb_true_iff in Hl as [H3 H4].
      apply N.leb_le in H3, H4.
      rewrite <- app_assoc, parse_unicode_escape by lia. rewrite Hr. reflexivity.
    + rewrite <- app_assoc, parse_escape_unit, Hr. reflexivity.
Qed.

Lemma parse_quote_body s rest :
  parse_string_body (quote_body s ++ QUOTE :: rest) = Some (s, rest).
Proof. apply (parse_quote_body_upto (length s)). lia. Qed.

Lemma parses_as_string s : parses_as (quote s) (JString s).
Proof.
  intros f rest. unfold quote. cbn [app parse_value skip_json_ws].
  change (is_json_ws QUOTE) with false. cbv iota.
  change (N.eqb QUOTE LBRACE) with false.
  change (N.eqb QUOTE 91) with false.
  change (N.eqb QUOTE QUOTE) with true. cbv iota.
  rewrite <- app_assoc. cbn [app]. rewrite parse_quote_body. reflexivity.
Qed.

Lemma parses_as_null : parses_as (str "null") JNull.
Proof. intros f rest. reflexivity. Qed.

Lemma storable_parses v :
  storable v = true ->
  exists t, JSON_stringify v = Some t /\ parses_as t v.
Proof.
  destruct v; try discriminate; intros _.
  - exists (str "null"). split; [reflexivity | apply parses_as_null].
  - exists (quote s). split; [reflexivity | apply parses_as_string].
Qed.

Lemma parse_members_next f k t v more acc :
  parses_as t v ->
  parse_members (S (S f)) (quote k ++ 58%N :: t ++ 44%N :: more) acc =
  parse_members (S f) more (obj_set acc k v).
Proof.
  intros P. unfold quote. cbn [app parse_members skip_json_ws].
  change (is_json_ws QUOTE) with false. cbv iota.
  change (N.eqb QUOTE QUOTE) with true. cbv iota.
  rewrite <- app_assoc. cbn [app]. rewrite parse_quote_body.
  cbn [skip_json_ws]. change (is_json_ws 58%N) with false. cbv iota.
  change (N.eqb 58 58) with true. cbv iota.
  rewrite (P f (44%N :: more)).
  cbn [skip_json_ws]. change (is_json_ws 44%N) with false. cbv iota.
  change (N.eqb 44 44) with true. cbv iota. reflexivity.
Qed.

Lemma parse_members_last f k t v rest acc :
  parses_as t v ->
  parse_members (S (S f)) (quote k ++ 58%N :: t ++ RBRACE :: rest) acc =
  Some (obj_set acc k v, rest).
Proof.
  intros P. unfold quote. cbn [app parse_members skip_json_ws].
  change (is_json_ws QUOTE) with false. cbv iota.
  change (N.eqb QUOTE QUOTE) with true. cbv iota.
  rewrite <- app_assoc. cbn [app]. rewrite parse_quote_body.
  cbn [skip_json_ws]. change (is_json_ws 58%N) with false. cbv iota.
  change (N.eqb 58 58) with true. cbv iota.
  rewrite (P f (RBRACE :: rest)).
  cbn [skip_json_ws]. change (is_json_ws RBRACE) with false. cbv iota.
  change (N.eqb RBRACE 44) with false.
  change (N.eqb RBRACE RBRACE) with true. cbv iota. reflexivity.
Qed.

Lemma parse_value_object F k r :
  parse_value (S F) (LBRACE :: quote k ++ r) =
  match parse_members F (quote k ++ r) [] with
  | Some (props, rest) => Some (JObject props, rest)
  | None => None
  end.
Proof. reflexivity. Qed.

(** The text [saveSession] stores is read back as the record written. *)
Lemma parse_session_record p :
  storable (sessionToken p) = true ->
  storable (email p) = true ->
  storable (username p) = true ->
  exists text,
    JSON_stringify (session_record p) = Some (LBRACE :: text) /\
    JSON_parse (LBRACE :: text) = Some (session_record p).
Proof.
  intros Ht He Hu.
  destruct (storable_parses _ Ht) as (tt & St & Pt).
  destruct (storable_parses _ He) as (te & Se & Pe).
  destruct (storable_parses _ Hu) as (tu & Su & Pu).
  unfold session_record. cbn [JSON_stringify flat_map fst snd].
  rewrite St, Se, Su. cbn [app join_comma].
  eexists. split; [reflexivity|].
  repeat (rewrite <- app_assoc; cbn [app]).
  unfold JSON_parse.
  set (text := LBRACE :: _).
  assert (F : exists f, 2 * length text + 2 = S (S (S (S (S f))))).
  { assert (2 <= length text)
      by (subst text; unfold quote at 1; cbn [length app]; lia).
    exists (2 * length text - 3). lia. }
  destruct F as (f & ->). subst text.
  rewrite parse_value_object.
  rewrite (parse_members_next _ _ _ _ _ _ Pt).
  rewrite (parse_members_next _ _ _ _ _ _ Pe).
  rewrite (parse_members_last _ _ _ _ _ _ Pu).
  reflexivity.
Qed.

Ltac run_client :=
  unfold logout, saveSession, loadSession, clearSession, send,
         this, this_transport, storage, zoom, Transport.send,
         when, bind, read, modify, emit, ret, throw, settle,
         state_of, trace_of, result_of;
  cbv beta iota.

(** C6 (as amended).  [logout] clears the four session fields exactly
    when its [send] went through, without waiting for any answer of
    the server; when the send fails (not connected, or the write is
    rejected) [logout] rethrows and the session is as it was. *)
Theorem logout_clears_after_send (c : Client) (write_result : Completion unit) :
  let out := logout write_result c in
  let p' := wmtpProtocol (state_of out) in
  match result_of out with
  | Return _ =>
      sessionToken p' = JNull /\ authenticated p' = JBool false /\
      email p' = JNull /\ username p' = JNull
  | Throw _ => p' = wmtpProtocol c
  end /\
  (result_of out = Return tt <->
   Transport.connected (wmtpTransport c) = true /\
   Transport.writer (wmtpTransport c) <> None /\
   write_result = Return tt).
Proof.
  intros out p'. subst p' out. run_client.
  cbn -[JSON_stringify TextEncoder_encode request_with].
  destruct (Transport.connected (wmtpTransport c));
    destruct (Transport.writer (wmtpTransport c)) as [w|];
    destruct write_result as [[]|e];
    cbn -[JSON_stringify TextEncoder_encode request_with];
    repeat split; try reflexivity; try discriminate;
    try (intros (A & B & C); congruence).
Qed.

(** C6, counterexample.  With the transport not connected, [logout]
    throws and the session is still the signed-in one. *)
Lemma logout_keeps_session_when_send_fails :
  let out := logout (Return tt) offline_client in
  result_of out = Throw (Error "Not connected") /\
  wmtpProtocol (state_of out) = signed_in /\
  authenticated (wmtpProtocol (state_of out)) = JBool true /\
  sessionToken (wmtpProtocol (state_of out)) = JString (str "OLD") /\
  sessionToken (wmtpProtocol (state_of out)) <> JNull.
Proof.
  vm_compute. repeat split; discriminate.
Qed.

Lemma jsstring_eqb_refl k : jsstring_eqb k k = true.
Proof. apply jsstring_eqb_eq. reflexivity. Qed.

Lemma getItem_setItem st k v : getItem (setItem st k v) k = Some v.
Proof. unfold setItem. cbn [getItem]. rewrite jsstring_eqb_refl. reflexivity. Qed.

Lemma token_present_truthy v : token_present v = true -> truthy v = true.
Proof. destruct v as [| | | | [|c s] | |]; simpl; congruence. Qed.

Lemma token_present_storable v : token_present v = true -> storable v = true.
Proof. destruct v as [| | | | [|c s] | |]; simpl; congruence. Qed.

(** C9 (as amended).  With no token (a falsy [sessionToken])
    [saveSession] writes nothing.  With a token, and with [email] and
    [username] each a string or [null], [saveSession] writes one item
    under the key [wmtp_session], and [loadSession] then returns a
    record with exactly the fields [token], [email], [username], equal
    to the saved values. *)
Theorem saveSession_loadSession_roundtrip (c : Client) :
  let p := wmtpProtocol c in
  (truthy (sessionToken p) = false -> saveSession c = (c, [], Return tt)) /\
  (token_present (sessionToken p) = true ->
   storable (email p) = true ->
   storable (username p) = true ->
   let saved := saveSession c in
   result_of saved = Return tt /\
   (exists text, trace_of saved = [StorageSet SESSION_KEY text]) /\
   wmtpProtocol (state_of saved) = p /\
   result_of (loadSession (state_of saved)) = Return (session_record p)).
Proof.
  intros p. split.
  - intros H. unfold saveSession, this, zoom, bind, read, when. cbv beta iota.
    fold p. rewrite H. destruct c; reflexivity.
  - intros Ht He Hu saved. subst saved.
    destruct (parse_session_record p (token_present_storable _ Ht) He Hu)
      as (text & Hs & Hp).
    unfold saveSession, loadSession, this, storage, zoom, bind, read, when,
           modify, emit, ret, state_of, trace_of, result_of.
    cbv beta iota. fold p. rewrite (token_present_truthy _ Ht), Hs.
    cbn [fst snd app localStorage wmtpProtocol].
    rewrite getItem_setItem, Hp.
    repeat split. eexists; reflexivity.
Qed.

Lemma saveSession_loadSession_roundtrip_witness :
  saveSession empty_client = (empty_client, [], Return tt) /\
  (let saved := saveSession saved_client in
   result_of saved = Return tt /\
   (exists text, trace_of saved = [StorageSet SESSION_KEY text]) /\
   wmtpProtocol (state_of saved) = wmtpProtocol saved_client /\
   result_of (loadSession (state_of saved)) =
     Return (JObject [(str "token", JString (str "T"));
                      (str "email", JString (str "a@b.com"));
                      (str "username", JString (str "a"))])).
Proof.
  split.
  - apply (proj1 (saveSession_loadSession_roundtrip empty_client)). reflexivity.
  - apply (proj2 (saveSession_loadSession_roundtrip saved_client)); reflexivity.
Defined.

(** C9, counterexample.  A session with a token whose [email] and
    [username] are [undefined] is saved as [{"token":"T"}]: the record
    loaded back has one field, not three. *)
Lemma loadSession_record_lacks_undefined_fields :
  let p := wmtpProtocol nameless_client in
  let saved := saveSession nameless_client in
  sessionToken p = JString (str "T") /\
  email p = JUndefined /\ username p = JUndefined /\
  trace_of saved = [StorageSet SESSION_KEY (json "{'token':'T'}")] /\
  result_of (loadSession (state_of saved)) =
    Return (JObject [(str "token", JString (str "T"))]) /\
  result_of (loadSession (state_of saved)) <> Return (session_record p).
Proof.
  vm_compute. repeat split; discriminate.
Qed.

End ProtocolCommands.

(* ===================================================================== *)
(** * Properties of the connection life cycle *)
(* ===================================================================== *)

Section TransportLifecycle.
Import JS Eff Transport Closing TransportSpec.

Ltac run_transport :=
  unfold connect, disconnect, closed_then, closed_catch, _handleDisconnect,
         Transport.send, try_catch, when, bind, read, modify, emit, ret,
         throw, settle, state_of, trace_of, result_of;
  cbv beta iota.

(** C4 (as amended).  A [connect] in which a step fails (the capability
    check, the decoding of the certificate hash, the construction, the
    handshake, the opening of the stream) rethrows the cause of that
    failure to the caller and invokes the error callback once, with that
    cause; it does not invoke the connect callback.  It leaves
    [connected], [writer] and [reader] as they were (so [false] and
    [null] when it started from the disconnected state).  The
    [transport] field is as it was only when the failure comes before
    the connection object exists; after a failed handshake or stream
    open it holds the object just constructed. *)
Theorem connect_failure_state
    (url : jsstring) (env : ConnectEnv) (t : WMTPTransport) (e : Exn) :
  first_failure env t = Some e ->
  let out := connect url env t in
  let t' := state_of out in
  result_of out = Throw e /\
  connected t' = connected t /\
  writer t' = writer t /\
  reader t' = reader t /\
  transport t' =
    match new_WebTransport env with
    | Return h => if reaches_constructor env t then Some h else transport t
    | Throw _ => transport t
    end /\
  calls TransportOnError (trace_of out) =
    (if onError t then [Caught e] else []) /\
  calls TransportOnConnect (trace_of out) = [].
Proof.
  intros H out t'. subst t' out. revert H. run_transport.
  unfold first_failure, reaches_constructor.
  destruct env as [defd at_ nw rd st]. cbn [WebTransport_defined Transport.atob
    new_WebTransport ready createBidirectionalStream].
  destruct defd; cbn;
    [destruct (has_certHash t) eqn:HC; cbn;
       [destruct at_ as [[]|ea]; cbn|];
       (destruct nw as [h|en]; cbn;
        [destruct rd as [[]|er]; cbn; [destruct st as [[w r]|es]; cbn|]|])|];
    rewrite ?HC; cbn;
    destruct (onError t) eqn:HE; cbn; rewrite ?HE; cbn;
    try destruct (onConnect t); cbn;
    intros Q; try discriminate Q; inversion Q; subst; repeat split;
    try (destruct nw; reflexivity).
Qed.

Lemma connect_failure_state_witness :
  let out := connect server_url handshake_fails watched in
  let t' := state_of out in
  result_of out = Throw (HostError "handshake failed") /\
  connected t' = false /\
  writer t' = None /\
  reader t' = None /\
  transport t' = Some 7 /\
  calls TransportOnError (trace_of out) = [Caught (HostError "handshake failed")] /\
  calls TransportOnConnect (trace_of out) = [].
Proof.
  apply (connect_failure_state server_url handshake_fails watched
           (HostError "handshake failed")).
  reflexivity.
Defined.

(** C4, counterexample.  After a failed handshake, and after a failed
    stream open, the transport is not in the disconnected state: the
    [transport] field holds the connection object that failed. *)
Lemma connect_failure_retains_transport :
  (let out := connect server_url handshake_fails watched in
   result_of out = Throw (HostError "handshake failed") /\
   connected (state_of out) = false /\
   transport watched = None /\
   transport (state_of out) = Some 7 /\
   transport (state_of out) <> None /\
   state_of out <> watched) /\
  (let out := connect server_url stream_open_fails watched in
   result_of out = Throw (HostError "stream refused") /\
   connected (state_of out) = false /\
   transport (state_of out) = Some 7 /\
   state_of out <> watched).
Proof.
  vm_compute. repeat split; discriminate.
Qed.

(** C5 (as amended).  Two [disconnect]s in a row, or a [disconnect]
    after the close of the connection has run the teardown, raise no
    error and leave the transport where the first teardown left it:
    not connected, no handles.  The notification is not idempotent:
    every run of the teardown invokes the disconnect callback, and the
    teardown runs once in every [disconnect] and once more in the
    handler that [connect] has put on the [closed] promise of the
    connection, when that promise settles.  On a connection made by
    [connect], a [disconnect] whose [close()] succeeds therefore
    invokes an installed handler twice and the second [disconnect] a
    third time; a [disconnect] after a remote close invokes it a second
    time. *)
Theorem teardown_twice
    (t : WMTPTransport) (close1 close2 : Completion unit) :
  let notified := if onDisconnect t then [NoArg] else [] in
  (let once := disconnect close1 t in
   let twice := disconnect close2 (state_of once) in
   let remote := closed_then t in
   let after_remote := disconnect close2 (state_of remote) in
   (result_of once = Return tt /\ result_of twice = Return tt /\
    result_of remote = Return tt /\ result_of after_remote = Return tt) /\
   (state_of twice = state_of once /\ state_of after_remote = state_of remote) /\
   (connected (state_of twice) = false /\ transport (state_of twice) = None /\
    writer (state_of twice) = None /\ reader (state_of twice) = None) /\
   (calls TransportOnDisconnect (trace_of once) = notified /\
    calls TransportOnDisconnect (trace_of twice) = notified /\
    calls TransportOnDisconnect (trace_of remote) = notified /\
    calls TransportOnDisconnect (trace_of after_remote) = notified)) /\
  (forall (url : jsstring) (env : ConnectEnv) (how : Settled),
     first_failure env t = None ->
     let made := in_world how (connect url env) (fresh t) in
     let once := in_world how (disconnect (Return tt)) (state_of made) in
     let twice := in_world how (disconnect close2) (state_of once) in
     (exists h,
        new_WebTransport env = Return h /\
        watching (state_of made) = [h] /\
        LifecycleSpec.closes (trace_of once) = [h] /\
        let remote := closed_settles how h (state_of made) in
        let after_remote := in_world how (disconnect close2) (state_of remote) in
        result_of remote = Return tt /\ result_of after_remote = Return tt /\
        state_of after_remote = state_of remote /\
        connected (the_transport (state_of after_remote)) = false /\
        calls TransportOnDisconnect (trace_of remote) = notified /\
        calls TransportOnDisconnect (trace_of after_remote) = notified) /\
     result_of made = Return true /\
     result_of once = Return tt /\ result_of twice = Return tt /\
     state_of twice = state_of once /\
     connected (the_transport (state_of twice)) = false /\
     watching (state_of twice) = [] /\
     calls TransportOnDisconnect (trace_of once) = notified ++ notified /\
     calls TransportOnDisconnect (trace_of twice) = notified).
Proof.
  intros notified. subst notified. split.
  - intros once twice remote after_remote.
    subst once twice remote after_remote. run_transport.
    destruct t as [tr w r cn om oc od oe ch].
    destruct tr as [h|], close1 as [[]|e1], close2 as [[]|e2], od;
      cbn; repeat split.
  - intros url env how F made once twice. subst made once twice.
    revert F. unfold first_failure, in_world, fresh, closed_settles,
      on_transport, on_closed, is_watching, unwatch.
    run_transport. unfold zoom.
    destruct env as [defd at_ nw rd st].
    cbn [WebTransport_defined Transport.atob new_WebTransport ready
         createBidirectionalStream].
    destruct t as [tr0 w0 r0 cn om oc od oe ch].
    unfold has_certHash. cbn [certHash onDisconnect].
    destruct defd; [|discriminate].
    destruct nw as [h|en];
      [|destruct ch as [[|c ch]|]; try destruct at_; discriminate].
    destruct rd as [[]|er];
      [|destruct ch as [[|c ch]|]; try destruct at_; discriminate].
    destruct st as [[w r]|es];
      [|destruct ch as [[|c ch]|]; try destruct at_; discriminate].
    assert (E : Nat.eqb h h = true) by apply Nat.eqb_refl.
    destruct ch as [[|c ch]|]; cbn [negb];
      try (destruct at_ as [[]|ea]; [|discriminate]);
      intros _;
      destruct oc, od, how as [|err];
      (split; [exists h|]);
      do 2 (cbv -[Nat.eqb]; rewrite ?E);
      repeat split.
Qed.

Lemma teardown_twice_witness :
  let made := in_world Fulfilled (connect server_url LifecycleSpec.all_succeed)
                (fresh watched) in
  let once := in_world Fulfilled (disconnect (Return tt)) (state_of made) in
  let twice := in_world Fulfilled (disconnect (Return tt)) (state_of once) in
  first_failure LifecycleSpec.all_succeed watched = None /\
  result_of made = Return true /\
  result_of once = Return tt /\ result_of twice = Return tt /\
  state_of twice = state_of once /\
  connected (the_transport (state_of twice)) = false /\
  watching (state_of twice) = [] /\
  calls TransportOnDisconnect (trace_of once) = [NoArg; NoArg] /\
  calls TransportOnDisconnect (trace_of twice) = [NoArg].
Proof.
  split; [reflexivity|].
  apply (proj2 (teardown_twice watched (Return tt) (Return tt))
           server_url LifecycleSpec.all_succeed Fulfilled).
  reflexivity.
Defined.

(** C5, counterexample.  On a connection made by [connect], two
    [disconnect]s in a row invoke the disconnect callback three times,
    and a [disconnect] that follows a remote close invokes it a second
    time: in neither case exactly once. *)
Lemma disconnect_twice_notifies_thrice :
  let made := in_world Fulfilled (connect server_url LifecycleSpec.all_succeed)
                (fresh watched) in
  (let once := in_world Fulfilled (disconnect (Return tt)) (state_of made) in
   let twice := in_world Fulfilled (disconnect (Return tt)) (state_of once) in
   result_of made = Return true /\
   calls TransportOnDisconnect (trace_of once ++ trace_of twice)
     = [NoArg; NoArg; NoArg] /\
   length (calls TransportOnDisconnect (trace_of once ++ trace_of twice)) <> 1) /\
  (let remote := closed_settles Fulfilled 17 (state_of made) in
   let after_remote := in_world Fulfilled (disconnect (Return tt)) (state_of remote) in
   calls TransportOnDisconnect (trace_of remote ++ trace_of after_remote)
     = [NoArg; NoArg] /\
   length (calls TransportOnDisconnect (trace_of remote ++ trace_of after_remote)) <> 1).
Proof.
  vm_compute. repeat split; discriminate.
Qed.

(** *** The encoding of a string and of its serialisation *)

Lemma utf8_encode_ascii a b :
  forallb (fun c => c <? 128)%N a = true ->
  utf8_encode (a ++ b) = a ++ utf8_encode b.
Proof.
  induction a as [|c a IH]; intros H; [reflexivity|].
  cbn [forallb] in H. apply andb_true_iff in H as [C A].
  cbn [app utf8_encode]. rewrite C, IH by exact A. reflexivity.
Qed.

Lemma hex_digit_ascii d : (d < 16)%N -> (hex_digit d <? 128)%N = true.
Proof.
  intros H. unfold hex_digit. apply N.ltb_lt.
  destruct (N.ltb_spec d 10); lia.
Qed.

Lemma unicode_escape_ascii c :
  forallb (fun c => c <? 128)%N (unicode_escape c) = true.
Proof.
  unfold unicode_escape. cbn [forallb].
  rewrite !hex_digit_ascii by (apply N.mod_lt; discriminate). reflexivity.
Qed.

Lemma surrogate_is_wide c :
  is_high_surrogate c = true \/ is_low_surrogate c = true ->
  (c <? 128)%N = false /\ (c <? 2048)%N = false.
Proof.
  unfold is_high_surrogate, is_low_surrogate.
  intros [H|H]; apply andb_true_iff in H as [H1 H2];
    apply N.leb_le in H1, H2; split; apply N.ltb_ge; lia.
Qed.

(** One more unit at the end is one more byte, when that unit is a
    quote. *)
Lemma utf8_encode_snoc_quote_upto n :
  forall x, length x <= n ->
    length (utf8_encode (x ++ [QUOTE])) = S (length (utf8_encode x)).
Proof.
  induction n as [|n IH]; intros [|c r] L; simpl in L; try lia;
    try reflexivity.
  assert (Hr : length (utf8_encode (r ++ [QUOTE])) = S (length (utf8_encode r)))
    by (apply IH; lia).
  cbn [app utf8_encode].
  destruct (c <? 128)%N; [cbn [length]; lia|].
  destruct (c <? 2048)%N; [cbn [length]; lia|].
  destruct (is_high_surrogate c).
  - destruct r as [|l r']; [reflexivity|].
    cbn [app]. destruct (is_low_surrogate l).
    + cbn [length]. rewrite IH by (simpl in L; lia). reflexivity.
    + cbn [app] in Hr. rewrite !length_app, Hr. lia.
  - destruct (is_low_surrogate c).
    + rewrite !length_app, Hr. lia.
    + cbn [length]. lia.
Qed.

Lemma utf8_encode_cons c r :
  utf8_encode (c :: r) =
  if (c <? 128)%N then c :: utf8_encode r
  else if (c <? 2048)%N then
    (192 + c / 64)%N :: (128 + c mod 64)%N :: utf8_encode r
  else if is_high_surrogate c then
    match r with
    | l :: r' =>
        if is_low_surrogate l then
          let cp := (65536 + (c - 55296) * 1024 + (l - 56320))%N in
          (240 + cp / 262144)%N :: (128 + cp / 4096 mod 64)%N ::
          (128 + cp / 64 mod 64)%N :: (128 + cp mod 64)%N :: utf8_encode r'
        else REPLACEMENT ++ utf8_encode r
    | [] => REPLACEMENT
    end
  else if is_low_surrogate c then REPLACEMENT ++ utf8_encode r
  else
    (224 + c / 4096)%N :: (128 + c / 64 mod 64)%N ::
    (128 + c mod 64)%N :: utf8_encode r.
Proof. destruct r; reflexivity. Qed.

(** Escaping never shortens the encoding. *)
Lemma utf8_encode_quote_body_upto n :
  forall s, length s <= n ->
    length (utf8_encode s) <= length (utf8_encode (quote_body s)).
Proof.
  induction n as [|n IH]; intros [|c r] L; simpl in L; try lia;
    try (cbn [quote_body utf8_encode length]; lia).
  assert (Hr : length (utf8_encode r) <= length (utf8_encode (quote_body r)))
    by (apply IH; lia).
  cbn [quote_body]. rewrite (utf8_encode_cons c r).
  destruct (is_high_surrogate c) eqn:Hh.
  - destruct (surrogate_is_wide c (or_introl Hh)) as [W1 W2]. rewrite W1, W2.
    destruct r as [|l r'].
    + rewrite <- (app_nil_r (unicode_escape c)).
      rewrite utf8_encode_ascii by apply unicode_escape_ascii.
      rewrite length_app. cbn [length REPLACEMENT unicode_escape utf8_encode]. lia.
    + destruct (is_low_surrogate l) eqn:Hl.
      * rewrite (utf8_encode_cons c (l :: quote_body r')).
        rewrite W1, W2, Hh, Hl. cbv zeta. cbn [length].
        assert (length (utf8_encode r') <= length (utf8_encode (quote_body r')))
          by (apply IH; simpl in L; lia).
        lia.
      * rewrite utf8_encode_ascii by apply unicode_escape_ascii.
        rewrite !length_app. cbn [length REPLACEMENT unicode_escape]. lia.
  - destruct (is_low_surrogate c) eqn:Hl.
    + destruct (surrogate_is_wide c (or_intror Hl)) as [W1 W2]. rewrite W1, W2.
      rewrite utf8_encode_ascii by apply unicode_escape_ascii.
      rewrite !length_app. cbn [length REPLACEMENT unicode_escape]. lia.
    + assert (E : forall a, forallb (fun c => c <? 128)%N a = true ->
                  length (utf8_encode (a ++ quote_body r)) =
                  length a + length (utf8_encode (quote_body r))).
      { intros a A. rewrite utf8_encode_ascii by exact A. apply length_app. }
      unfold escape_unit.
      destruct (N.ltb_spec c 128) as [A|A].
      * (* an ASCII character: one byte, at least one byte once escaped *)
        repeat match goal with
               | |- context [N.eqb c ?k] =>
                   destruct (N.eqb c k);
                   [rewrite E by reflexivity; cbn [length]; lia|]
               end.
        destruct (c <? 32)%N.
        -- rewrite E by apply unicode_escape_ascii.
           cbn [length unicode_escape]. lia.
        -- cbn [app]. rewrite (utf8_encode_cons c (quote_body r)).
           replace (c <? 128)%N with true by (symmetry; apply N.ltb_lt; exact A).
           cbn [length]. lia.
      * (* any other character stands for itself *)
        repeat match goal with
               | |- context [N.eqb c ?k] =>
                   destruct (N.eqb_spec c k);
                   [exfalso; unfold QUOTE, BACKSLASH in *; lia|]
               end.
        replace (c <? 32)%N with false by (symmetry; apply N.ltb_ge; lia).
        cbn [app]. rewrite (utf8_encode_cons c (quote_body r)).
        replace (c <? 128)%N with false by (symmetry; apply N.ltb_ge; exact A).
        rewrite Hh, Hl.
        destruct (c <? 2048)%N; cbn [length]; lia.
Qed.

Lemma utf8_encode_quote_longer s :
  length (utf8_encode s) + 2 <= length (utf8_encode (quote s)).
Proof.
  unfold quote. cbn [utf8_encode]. change (QUOTE <? 128)%N with true.
  cbv iota. cbn [length].
  rewrite (utf8_encode_snoc_quote_upto (length (quote_body s))) by lia.
  pose proof (utf8_encode_quote_body_upto (length s) s (le_n _)). lia.
Qed.

(** C10.  On a connected transport [send] writes, in one write, the
    UTF-8 encoding of the string it is given, as it is: these are not
    the bytes of the string's JSON serialisation.  Any other value is
    first serialised by [JSON.stringify].  This holds whatever the
    string is and whether or not the write then succeeds. *)
Theorem send_string_verbatim
    (t : WMTPTransport) (w : Handle) (data : JSValue)
    (write_result : Completion unit) :
  connected t = true ->
  writer t = Some w ->
  let out := Transport.send data write_result t in
  state_of out = t /\
  result_of out = write_result /\
  match data with
  | JString s =>
      writes (trace_of out) = [(w, utf8_encode s)] /\
      utf8_encode s <> TextEncoder_encode (JSON_stringify data)
  | _ =>
      writes (trace_of out) = [(w, TextEncoder_encode (JSON_stringify data))]
  end.
Proof.
  intros C W out. subst out. run_transport. rewrite C, W.
  destruct data, write_result as [[]|e];
    cbn -[JSON_stringify utf8_encode quote];
    repeat split;
    intros E; pose proof (utf8_encode_quote_longer s) as L;
    cbn [JSON_stringify TextEncoder_encode] in E; rewrite <- E in L; lia.
Qed.

Lemma send_string_verbatim_witness :
  let out := Transport.send (JString (json "{'cmd':'PING'} plain text")) (Return tt) live in
  state_of out = live /\
  result_of out = Return tt /\
  writes (trace_of out) = [(8, utf8_encode (json "{'cmd':'PING'} plain text"))] /\
  utf8_encode (json "{'cmd':'PING'} plain text") <>
  TextEncoder_encode (JSON_stringify (JString (json "{'cmd':'PING'} plain text"))).
Proof.
  apply (send_string_verbatim live 8
           (JString (json "{'cmd':'PING'} plain text")) (Return tt));
    reflexivity.
Defined.

End TransportLifecycle.

(* ===================================================================== *)
(** * Properties of the message splitter *)
(* ===================================================================== *)

Section Framing.
Import JS Eff Transport TransportSpec.

Variable St : Type.

Lemma forEach_part_spec n parts :
  forall index messages (s : St),
    forEach_part n index parts messages s =
    (s,
     dropped (map (fun ip => rebrace n (fst ip) (snd ip))
                  (combine (seq index (length parts)) parts)),
     Return (messages ++
             parsed (map (fun ip => rebrace n (fst ip) (snd ip))
                         (combine (seq index (length parts)) parts)))).
Proof.
  induction parts as [|part rest IH]; intros index messages s.
  - cbn. rewrite app_nil_r. reflexivity.
  - cbn [forEach_part length seq combine map fst snd].
    unfold bind. unfold parsed, dropped. cbn [flat_map].
    fold (parsed (map (fun ip => rebrace n (fst ip) (snd ip))
                      (combine (seq (S index) (length rest)) rest))).
    fold (dropped (map (fun ip => rebrace n (fst ip) (snd ip))
                       (combine (seq (S index) (length rest)) rest))).
    destruct (JSON_parse (rebrace n index part)) as [v|].
    + unfold ret at 1. rewrite IH. cbn [app]. rewrite <- app_assoc. reflexivity.
    + unfold bind, emit, ret at 1. rewrite IH. cbn [app]. reflexivity.
Qed.

(** [_parseMessages] parses each substring of the split on its own: it
    returns those that parse, in order, warns about the others, and
    does not throw. *)
Lemma _parseMessages_spec text (s : St) :
  _parseMessages text s =
  (s, dropped (substrings text), Return (parsed (substrings text))).
Proof.
  unfold _parseMessages, substrings. rewrite forEach_part_spec. reflexivity.
Qed.

(** C8.  When the split of a chunk gives two substrings, one that
    [JSON.parse] rejects and one that it accepts, [_parseMessages]
    returns exactly the parsed one, emits exactly one diagnostic, about
    the rejected one, and returns normally. *)
Theorem malformed_substring_is_isolated
    (text j1 j2 : jsstring) (v : JSValue) (s : St) :
  substrings text = [j1; j2] ->
  (JSON_parse j1 = None /\ JSON_parse j2 = Some v) \/
  (JSON_parse j1 = Some v /\ JSON_parse j2 = None) ->
  exists bad,
    (bad = j1 \/ bad = j2) /\ JSON_parse bad = None /\
    _parseMessages text s =
    (s, [Console WARN "[Transport] Parse error:" (DText bad)], Return [v]).
Proof.
  intros Hs [[H1 H2]|[H1 H2]]; rewrite _parseMessages_spec, Hs;
    unfold parsed, dropped; cbn [flat_map]; rewrite H1, H2; cbn [app].
  - exists j1. auto.
  - exists j2. auto.
Qed.

(** *** Two messages in one chunk *)

Lemma skip_space_spaces w c r :
  forallb is_space w = true -> is_space c = false ->
  skip_space (w ++ c :: r) = c :: r.
Proof.
  intros W C. induction w as [|x w IH]; cbn [app skip_space].
  - rewrite C. reflexivity.
  - cbn [forallb] in W. apply andb_true_iff in W as [X W'].
    rewrite X. apply IH. exact W'.
Qed.

(** Whether the pattern matches at the head of [u ++ x :: t], for a
    non-empty [u] and an [x] that is not white space, does not depend
    on [t]. *)
Lemma skip_space_head u x t t' :
  is_space x = false ->
  match skip_space (u ++ x :: t) with
  | c' :: _ => N.eqb c' LBRACE
  | [] => false
  end =
  match skip_space (u ++ x :: t') with
  | c' :: _ => N.eqb c' LBRACE
  | [] => false
  end.
Proof.
  intros X. induction u as [|y u IH]; cbn [app skip_space].
  - rewrite X. reflexivity.
  - destruct (is_space y); [exact IH | reflexivity].
Qed.

Lemma match_boundary_none s :
  match_boundary s = None <->
  match s with
  | c :: r => N.eqb c RBRACE &&
              match skip_space r with
              | c' :: _ => N.eqb c' LBRACE
              | [] => false
              end
  | [] => false
  end = false.
Proof.
  destruct s as [|c r]; cbn [match_boundary]; [tauto|].
  destruct (N.eqb c RBRACE); cbn [andb]; [|tauto].
  destruct (skip_space r) as [|c' r']; [tauto|].
  destruct (N.eqb c' LBRACE); split; intros; congruence.
Qed.

Lemma match_boundary_tail u x t t' :
  u <> [] -> is_space x = false ->
  match_boundary (u ++ x :: t) = None ->
  match_boundary (u ++ x :: t') = None.
Proof.
  intros U X. destruct u as [|c u]; [contradiction|].
  rewrite !match_boundary_none. cbn [app].
  rewrite (skip_space_head u x t t' X). tauto.
Qed.

Lemma has_boundary_suffix u v :
  has_boundary (u ++ v) = false -> match_boundary v = None.
Proof.
  induction u as [|c u IH]; cbn [app].
  - destruct v as [|c r]; [reflexivity|]. cbn [has_boundary].
    destruct (match_boundary (c :: r)); [discriminate | reflexivity].
  - cbn [has_boundary]. destruct (match_boundary (c :: u ++ v)); [discriminate|].
    exact IH.
Qed.

(** One step of the scan. *)
Lemma split_scan_cons cur c r :
  split_scan cur (c :: r) =
  match match_boundary (c :: r) with
  | Some r' => rev cur :: split_scan [] r'
  | None => split_scan (c :: cur) r
  end.
Proof.
  simp split_scan.
  destruct (inspect (match_boundary (c :: r))) as [[r'|] E];
    cbn [split_scan_unfold_clause_2]; rewrite E; reflexivity.
Qed.

(** The scan runs through a stretch in which the pattern matches nowhere. *)
Lemma split_scan_through pre :
  forall rest cur,
    (forall u v, pre = u ++ v -> v <> [] -> match_boundary (v ++ rest) = None) ->
    split_scan cur (pre ++ rest) = split_scan (rev pre ++ cur) rest.
Proof.
  induction pre as [|c pre IH]; intros rest cur H; [reflexivity|].
  cbn [app]. rewrite split_scan_cons.
  pose proof (H [] (c :: pre) eq_refl) as M. cbn [app] in M.
  rewrite M by discriminate.
  rewrite IH.
  - cbn [rev]. rewrite <- app_assoc. reflexivity.
  - intros u v E V. apply (H (c :: u) v); [rewrite E; reflexivity | exact V].
Qed.

Lemma split_boundary_two b1 ws b2 :
  forallb is_space ws = true ->
  has_boundary (LBRACE :: b1 ++ [RBRACE]) = false ->
  has_boundary (LBRACE :: b2 ++ [RBRACE]) = false ->
  split_boundary ((LBRACE :: b1 ++ [RBRACE]) ++ ws ++ LBRACE :: b2 ++ [RBRACE]) =
  [LBRACE :: b1; b2 ++ [RBRACE]].
Proof.
  intros W H1 H2. unfold split_boundary.
  replace ((LBRACE :: b1 ++ [RBRACE]) ++ ws ++ LBRACE :: b2 ++ [RBRACE])
    with ((LBRACE :: b1) ++ RBRACE :: ws ++ LBRACE :: b2 ++ [RBRACE])
    by (cbn [app]; rewrite <- app_assoc; reflexivity).
  rewrite split_scan_through.
  - rewrite app_nil_r, split_scan_cons.
    cbn [match_boundary]. change (N.eqb RBRACE RBRACE) with true. cbv iota.
    rewrite (skip_space_spaces ws LBRACE _ W eq_refl).
    change (N.eqb LBRACE LBRACE) with true. cbv iota.
    rewrite rev_involutive. f_equal.
    rewrite <- (app_nil_r (b2 ++ [RBRACE])) at 1.
    rewrite split_scan_through.
    + rewrite app_nil_r. simp split_scan. rewrite rev_involutive. reflexivity.
    + intros u v E V. rewrite app_nil_r.
      apply (has_boundary_suffix (LBRACE :: u) v).
      cbn [app]. rewrite <- E. exact H2.
  - intros u v E V.
    apply (match_boundary_tail v RBRACE [] _ V eq_refl).
    apply (has_boundary_suffix u (v ++ [RBRACE])).
    rewrite app_assoc, <- E. exact H1.
Qed.

Lemma forallb_rev (f : code_unit -> bool) w :
  forallb f (rev w) = forallb f w.
Proof.
  induction w as [|x w IH]; [reflexivity|].
  cbn [rev forallb]. rewrite forallb_app, IH. cbn [forallb].
  rewrite andb_true_r. apply andb_comm.
Qed.

Lemma trim_padded w0 core w3 :
  forallb is_space w0 = true -> forallb is_space w3 = true ->
  trim (w0 ++ (LBRACE :: core ++ [RBRACE]) ++ w3) = LBRACE :: core ++ [RBRACE].
Proof.
  intros W0 W3. unfold trim. cbn [app].
  rewrite (skip_space_spaces w0 LBRACE _ W0 eq_refl).
  change (LBRACE :: (core ++ [RBRACE]) ++ w3)
    with ((LBRACE :: core ++ [RBRACE]) ++ w3).
  rewrite rev_app_distr.
  change (LBRACE :: core ++ [RBRACE]) with ((LBRACE :: core) ++ [RBRACE]) at 1.
  rewrite (rev_app_distr (LBRACE :: core) [RBRACE]). cbn [rev app].
  rewrite skip_space_spaces.
  - change (RBRACE :: rev core ++ [LBRACE])
      with (rev [RBRACE] ++ rev (LBRACE :: core)).
    rewrite <- rev_app_distr, rev_involutive. reflexivity.
  - rewrite forallb_rev. exact W3.
  - reflexivity.
Qed.

(** C3 (as amended).  Two serialised objects, each from its opening to
    its closing brace and neither containing a closing brace followed
    by optional white space and an opening brace, written one after the
    other with optional white space around and between them, are split
    into exactly these two texts; when both parse, [_parseMessages]
    returns the two parsed messages, in order, without a diagnostic. *)
Theorem two_messages_in_one_chunk
    (w0 b1 ws b2 w3 : jsstring) (m1 m2 : JSValue) (s : St) :
  let s1 := LBRACE :: b1 ++ [RBRACE] in
  let s2 := LBRACE :: b2 ++ [RBRACE] in
  let chunk := w0 ++ (s1 ++ ws ++ s2) ++ w3 in
  forallb is_space w0 = true ->
  forallb is_space ws = true ->
  forallb is_space w3 = true ->
  has_boundary s1 = false ->
  has_boundary s2 = false ->
  JSON_parse s1 = Some m1 ->
  JSON_parse s2 = Some m2 ->
  substrings chunk = [s1; s2] /\
  _parseMessages chunk s = (s, [], Return [m1; m2]).
Proof.
  intros s1 s2 chunk W0 W W3 H1 H2 P1 P2.
  assert (E : s1 ++ ws ++ s2 =
              LBRACE :: (b1 ++ [RBRACE] ++ ws ++ LBRACE :: b2) ++ [RBRACE]).
  { unfold s1, s2.
    repeat first [rewrite <- app_assoc | progress cbn [app]]. reflexivity. }
  assert (Hs : substrings chunk = [s1; s2]).
  { unfold substrings, chunk. rewrite E, trim_padded by assumption.
    rewrite <- E. unfold s1, s2.
    rewrite split_boundary_two by assumption. reflexivity. }
  split; [exact Hs|].
  rewrite _parseMessages_spec, Hs. unfold parsed, dropped. cbn [flat_map].
  rewrite P1, P2. reflexivity.
Qed.

End Framing.

Section FramingExamples.
Import JS Eff Transport TransportSpec.

Lemma two_messages_in_one_chunk_witness :
  let s1 := json "{'status':'OK','cmd':'PONG'}" in
  let s2 := json "{'cmd':'HB','ts':1732608000}" in
  let chunk := [32%N] ++ (s1 ++ [13%N; 10%N] ++ s2) ++ [10%N] in
  substrings chunk = [s1; s2] /\
  _parseMessages chunk tt =
  (tt, [],
   Return [JObject [(str "status", JString (str "OK"));
                    (str "cmd", JString (str "PONG"))];
           JObject [(str "cmd", JString (str "HB"));
                    (str "ts", JNumber (Num 1732608 3))]]).
Proof.
  apply (two_messages_in_one_chunk unit
           [32%N] (json "'status':'OK','cmd':'PONG'") [13%N; 10%N]
           (json "'cmd':'HB','ts':1732608000") [10%N]);
    vm_compute; reflexivity.
Defined.

(** C3, counterexample.  Two object messages, each parsing on its own,
    with no [}{] inside any string value (in the first pair, nowhere at
    all).  In the first pair a string value contains [} {], where the
    pattern matches as well; in the second pair a property name
    contains [}{].  Either chunk is cut in three, two pieces fail to
    parse, and one message comes out instead of two. *)
Lemma brace_space_brace_in_a_string_breaks_framing :
  (let s1 := json "{'a':'} {'}" in
   let s2 := json "{'b':1}" in
   let m1 := JObject [(str "a", JString (str "} {"))] in
   let m2 := JObject [(str "b", JNumber (Num 1 0))] in
   JSON_parse s1 = Some m1 /\
   JSON_parse s2 = Some m2 /\
   no_brace_pair_in_values m1 = true /\
   no_brace_pair_in_values m2 = true /\
   occurs (str "}{") s1 = false /\
   occurs (str "}{") s2 = false /\
   substrings (s1 ++ s2) = [json "{'a':'}"; json "{'}"; json "{'b':1}"] /\
   _parseMessages (s1 ++ s2) tt =
   (tt,
    [Console WARN "[Transport] Parse error:" (DText (json "{'a':'}"));
     Console WARN "[Transport] Parse error:" (DText (json "{'}"))],
    Return [m2]) /\
   result_of (_parseMessages (s1 ++ s2) tt) <> Return [m1; m2]) /\
  (let s1 := json "{'}{':1}" in
   let s2 := json "{'b':1}" in
   let m1 := JObject [(str "}{", JNumber (Num 1 0))] in
   let m2 := JObject [(str "b", JNumber (Num 1 0))] in
   JSON_parse s1 = Some m1 /\
   JSON_parse s2 = Some m2 /\
   no_brace_pair_in_values m1 = true /\
   no_brace_pair_in_values m2 = true /\
   substrings (s1 ++ s2) = [json "{'}"; json "{':1}"; json "{'b':1}"] /\
   result_of (_parseMessages (s1 ++ s2) tt) = Return [m2] /\
   result_of (_parseMessages (s1 ++ s2) tt) <> Return [m1; m2]).
Proof.
  vm_compute. repeat split; discriminate.
Qed.

Lemma malformed_substring_is_isolated_witness :
  exists bad,
    (bad = json "{'cmd':'PING'}" \/ bad = json "{oops}") /\
    JSON_parse bad = None /\
    _parseMessages (json "{'cmd':'PING'} {oops}") tt =
    (tt, [Console WARN "[Transport] Parse error:" (DText bad)],
     Return [JObject [(str "cmd", JString (str "PING"))]]).
Proof.
  apply (malformed_substring_is_isolated unit
           (json "{'cmd':'PING'} {oops}")
           (json "{'cmd':'PING'}") (json "{oops}")).
  - vm_compute. reflexivity.
  - right. split; vm_compute; reflexivity.
Defined.

End FramingExamples.

(* ===================================================================== *)
(** * The other transitions of the message handler *)
(* ===================================================================== *)

Section HandlerTransitions.
Import JS Eff Protocol SessionSpec HandlerSpec.

Ltac hm_run :=
  unfold handleMessage, field; rewrite ?get_object;
  unfold when, bind, read, modify, emit, ret, throw,
         state_of, trace_of, result_of;
  cbv beta iota.

Ltac hm_cases :=
  repeat (cbn -[prop is_string];
          match goal with
          | |- context [if ?b then _ else _] => destruct b eqn:?
          end);
  cbn -[prop is_string].

Ltac hm_clash :=
  match goal with
  | H : is_string (JString _) _ = _ |- _ => vm_compute in H; discriminate H
  end.

(** X1.  On an [AUTH_OK] the handler stores the message's
    [session_token], [email] and [username] as they are, sets
    [authenticated] to [true] whatever the message's own
    [authenticated] and [status] say, and invokes [onAuthSuccess] once
    with the message; [onSessionInit] is not invoked. *)
Theorem handleMessage_AUTH_OK
    (p : WMTPProtocol) (props : list (jsstring * JSValue)) :
  is_string (prop props "cmd") "AUTH_OK" = true ->
  let message := JObject props in
  let out := handleMessage message p in
  result_of out = Return tt /\
  sessionToken (state_of out) = prop props "session_token" /\
  authenticated (state_of out) = JBool true /\
  email (state_of out) = prop props "email" /\
  username (state_of out) = prop props "username" /\
  calls OnAuthSuccess (trace_of out) = notified (onAuthSuccess p) message /\
  calls OnSessionInit (trace_of out) = [].
Proof.
  intros H message out. subst out message. hm_run.
  apply is_string_true in H. rewrite H. unfold notified.
  hm_cases; try hm_clash; repeat split.
Qed.

(** X2.  On a [SESSION_RESUMED] the handler copies [session_token],
    [authenticated], [email] and [username] from the message (a field
    the message lacks becomes [undefined]) and invokes [onSessionInit]
    once; [onAuthSuccess] is not invoked, also when the resumed session
    is authenticated. *)
Theorem handleMessage_SESSION_RESUMED
    (p : WMTPProtocol) (props : list (jsstring * JSValue)) :
  is_string (prop props "cmd") "SESSION_RESUMED" = true ->
  let message := JObject props in
  let out := handleMessage message p in
  result_of out = Return tt /\
  sessionToken (state_of out) = prop props "session_token" /\
  authenticated (state_of out) = prop props "authenticated" /\
  email (state_of out) = prop props "email" /\
  username (state_of out) = prop props "username" /\
  calls OnSessionInit (trace_of out) = notified (onSessionInit p) message /\
  calls OnAuthSuccess (trace_of out) = [].
Proof.
  intros H message out. subst out message. hm_run.
  apply is_string_true in H. rewrite H. unfold notified.
  hm_cases; try hm_clash; repeat split.
Qed.

(** X3.  On a [LOGOUT_OK] the four session fields are reset to the
    constructor's values whatever they were, and neither
    [onSessionInit] nor [onAuthSuccess] is invoked. *)
Theorem handleMessage_LOGOUT_OK
    (p : WMTPProtocol) (props : list (jsstring * JSValue)) :
  is_string (prop props "cmd") "LOGOUT_OK" = true ->
  let out := handleMessage (JObject props) p in
  result_of out = Return tt /\
  sessionToken (state_of out) = JNull /\
  authenticated (state_of out) = JBool false /\
  email (state_of out) = JNull /\
  username (state_of out) = JNull /\
  calls OnSessionInit (trace_of out) = [] /\
  calls OnAuthSuccess (trace_of out) = [].
Proof.
  intros H out. subst out. hm_run.
  apply is_string_true in H. rewrite H.
  hm_cases; try hm_clash; repeat split.
Qed.

Lemma handleMessage_AUTH_OK_witness :
  let out := handleMessage (JObject auth_ok_denying) Protocol.constructor in
  result_of out = Return tt /\
  sessionToken (state_of out) = JString (str "T") /\
  authenticated (state_of out) = JBool true /\
  email (state_of out) = JUndefined /\
  username (state_of out) = JUndefined /\
  calls OnAuthSuccess (trace_of out) = [] /\
  calls OnSessionInit (trace_of out) = [].
Proof.
  apply (handleMessage_AUTH_OK Protocol.constructor auth_ok_denying).
  reflexivity.
Defined.

Lemma handleMessage_SESSION_RESUMED_witness :
  let out := handleMessage (JObject resumed_anonymous) signed_in in
  result_of out = Return tt /\
  sessionToken (state_of out) = JString (str "R") /\
  authenticated (state_of out) = JBool false /\
  email (state_of out) = JUndefined /\
  username (state_of out) = JUndefined /\
  calls OnSessionInit (trace_of out) = [Value (JObject resumed_anonymous)] /\
  calls OnAuthSuccess (trace_of out) = [].
Proof.
  apply (handleMessage_SESSION_RESUMED signed_in resumed_anonymous).
  reflexivity.
Defined.

Lemma handleMessage_LOGOUT_OK_witness :
  let out := handleMessage (JObject logout_ok) signed_in in
  result_of out = Return tt /\
  sessionToken (state_of out) = JNull /\
  authenticated (state_of out) = JBool false /\
  email (state_of out) = JNull /\
  username (state_of out) = JNull /\
  calls OnSessionInit (trace_of out) = [] /\
  calls OnAuthSuccess (trace_of out) = [].
Proof.
  apply (handleMessage_LOGOUT_OK signed_in logout_ok).
  reflexivity.
Defined.

(** X4.  A message whose [cmd] is none of [SESSION_INIT], [AUTH_OK],
    [SESSION_RESUMED], [LOGOUT_OK] (a [PONG], a [STATUS], a heartbeat, a
    message without [cmd], a value that is not an object) leaves the
    whole protocol object as it was, whatever its other fields are. *)
Theorem handleMessage_unclassified_keeps_session
    (p : WMTPProtocol) (message cmd : JSValue) :
  get message "cmd" = Some cmd ->
  unclassified cmd = true ->
  let out := handleMessage message p in
  result_of out = Return tt /\ state_of out = p.
Proof.
  intros G U out. subst out. unfold unclassified in U.
  repeat (apply andb_true_iff in U; destruct U as [U ?]).
  repeat match goal with
         | H : negb _ = true |- _ => apply negb_true_iff in H
         end.
  assert (S : exists st, get message "status" = Some st).
  { destruct message; try discriminate G;
      try (rewrite get_object; eauto); eexists; reflexivity. }
  destruct S as (st & S).
  unfold handleMessage, field. rewrite G, S.
  unfold when, bind, read, modify, emit, ret, throw,
         state_of, trace_of, result_of. cbv beta iota.
  repeat match goal with
         | H : is_string cmd _ = false |- _ => rewrite H; clear H
         end.
  destruct (is_string cmd "HB"), (onHeartbeat p), (is_string st "ERR"),
           (onError p), (onResponse p); cbn; split; reflexivity.
Qed.

Lemma handleMessage_unclassified_keeps_session_witness :
  let out := handleMessage
               (JObject [(str "status", JString (str "OK"));
                         (str "cmd", JString (str "PONG"));
                         (str "session_token", JString (str "Z"))])
               signed_in in
  result_of out = Return tt /\ state_of out = signed_in.
Proof.
  apply (handleMessage_unclassified_keeps_session signed_in _
           (JString (str "PONG"))); reflexivity.
Defined.

(** X5.  For every message other than a heartbeat the trace is, in this
    order and with nothing else: the callback of the transition that
    [cmd] selects (none for a [cmd] that selects no transition), then
    [onError] with the message when and only when [status] is [ERR],
    then [onResponse] with the message.  The error callback does not
    depend on [cmd], and a transition is made also when [status] is
    [ERR]. *)
Theorem handleMessage_error_then_response
    (p : WMTPProtocol) (props : list (jsstring * JSValue)) :
  is_string (prop props "cmd") "HB" = false ->
  let message := JObject props in
  let out := handleMessage message p in
  trace_of out =
    transition_callback p message (prop props "cmd") ++
    (if is_string (prop props "status") "ERR" && onError p
     then [Callback OnError (Value message)] else []) ++
    (if onResponse p then [Callback OnResponse (Value message)] else []) /\
  calls OnError (trace_of out) =
    (if is_string (prop props "status") "ERR"
     then notified (onError p) message else []).
Proof.
  intros H message out. subst out message. hm_run. rewrite H.
  unfold notified, transition_callback. hm_cases; split; reflexivity.
Qed.

Lemma handleMessage_error_then_response_witness :
  let message :=
    JObject [(str "status", JString (str "ERR"));
             (str "cmd", JString (str "AUTH_OK"));
             (str "code", JNumber (Num 2001 0))] in
  let out := handleMessage message signed_in in
  trace_of out =
    [Callback OnAuthSuccess (Value message);
     Callback OnError (Value message);
     Callback OnResponse (Value message)] /\
  calls OnError (trace_of out) = [Value message].
Proof.
  apply (handleMessage_error_then_response signed_in
           [(str "status", JString (str "ERR"));
            (str "cmd", JString (str "AUTH_OK"));
            (str "code", JNumber (Num 2001 0))]).
  reflexivity.
Defined.

(** X6.  On [null] and on [undefined] the handler throws a [TypeError]
    at its first property access: no callback is invoked and the
    session is untouched. *)
Theorem handleMessage_null_throws (p : WMTPProtocol) (message : JSValue) :
  message = JNull \/ message = JUndefined ->
  let out := handleMessage message p in
  (exists text, result_of out = Throw (TypeError text)) /\
  state_of out = p /\
  trace_of out = [].
Proof.
  intros [-> | ->]; cbv zeta; repeat split; eexists; reflexivity.
Qed.

Lemma handleMessage_null_throws_witness :
  JSON_parse (str "null") = Some JNull /\
  let out := handleMessage JNull signed_in in
  (exists text, result_of out = Throw (TypeError text)) /\
  state_of out = signed_in /\
  trace_of out = [].
Proof.
  split; [reflexivity|].
  apply (handleMessage_null_throws signed_in JNull). left. reflexivity.
Defined.

End HandlerTransitions.

(* ===================================================================== *)
(** * The commands and what they put on the wire *)
(* ===================================================================== *)

Section Commands.
Import JS Eff Protocol SessionSpec WireSpec.

Ltac run_command :=
  unfold init, auth, resume, ping, status, info, logout, send,
         this, this_transport, storage, zoom, Transport.send,
         when, bind, read, modify, emit, ret, throw, settle,
         state_of, trace_of, result_of;
  cbv beta iota.

(** What [send] does on a connected transport. *)
Lemma send_connected (c : Client) (w : Handle) (data : JSValue)
    (write_result : Completion unit) :
  Transport.connected (wmtpTransport c) = true ->
  Transport.writer (wmtpTransport c) = Some w ->
  let out := send data write_result c in
  state_of out = c /\
  result_of out = write_result /\
  writes (trace_of out) =
    [(w, TextEncoder_encode
           match data with
           | JString s => Some s
           | _ => JSON_stringify data
           end)].
Proof.
  intros C W out. subst out. run_command. rewrite C, W.
  destruct c as [t p st].
  destruct write_result as [[]|e];
    cbn -[JSON_stringify TextEncoder_encode]; repeat split.
Qed.

Lemma parse_members_last_at f k t v rest acc :
  parse_value (S f) (t ++ RBRACE :: rest) = Some (v, RBRACE :: rest) ->
  parse_members (S (S f)) (quote k ++ 58%N :: t ++ RBRACE :: rest) acc =
  Some (obj_set acc k v, rest).
Proof.
  intros P. unfold quote. cbn [app parse_members skip_json_ws].
  change (is_json_ws QUOTE) with false. cbv iota.
  change (N.eqb QUOTE QUOTE) with true. cbv iota.
  rewrite <- app_assoc. cbn [app]. rewrite parse_quote_body.
  cbn [skip_json_ws]. change (is_json_ws 58%N) with false. cbv iota.
  change (N.eqb 58 58) with true. cbv iota.
  rewrite P.
  cbn [skip_json_ws]. change (is_json_ws RBRACE) with false. cbv iota.
  change (N.eqb RBRACE 44) with false.
  change (N.eqb RBRACE RBRACE) with true. cbv iota. reflexivity.
Qed.

Lemma parse_members_last_nested f k k2 v2 acc :
  parse_members (S (S (S (S f))))
    (quote k ++ 58%N :: LBRACE :: quote k2 ++ 58%N :: quote v2 ++ [RBRACE; RBRACE])
    acc =
  Some (obj_set acc k (JObject [(k2, JString v2)]), []).
Proof.
  assert (E : quote k ++ 58%N :: LBRACE :: quote k2 ++ 58%N :: quote v2 ++ [RBRACE; RBRACE]
              = quote k ++ 58%N :: (LBRACE :: quote k2 ++ 58%N :: quote v2 ++ [RBRACE])
                                   ++ RBRACE :: []).
  { repeat first [rewrite <- app_assoc | progress cbn [app]]. reflexivity. }
  rewrite E. apply parse_members_last_at.
  repeat first [rewrite <- app_assoc | progress cbn [app]].
  rewrite parse_value_object.
  rewrite (parse_members_last _ _ _ _ _ _ (parses_as_string v2)).
  reflexivity.
Qed.

Lemma stringify_request_with cmd key v :
  JSON_stringify (request_with cmd key (JString v)) =
  Some (request_text cmd key v).
Proof.
  unfold request_with, request_text. cbn [JSON_stringify flat_map fst snd app join_comma].
  f_equal. change (json "{'cmd':") with (LBRACE :: quote (str "cmd") ++ [58%N]).
  change (json ",'data':{") with (44%N :: quote (str "data") ++ [58%N; LBRACE]).
  change (json ":") with [58%N]. change (json "}}") with [RBRACE; RBRACE].
  repeat first [rewrite <- app_assoc | progress cbn [app]]. reflexivity.
Qed.

Lemma parse_request_text cmd key v :
  JSON_parse (request_text cmd key v) = Some (request_with cmd key (JString v)).
Proof.
  apply (JSON_parse_fuel_adequate 6 _ _ []); [|reflexivity].
  unfold request_text.
  change (json "{'cmd':") with (LBRACE :: quote (str "cmd") ++ [58%N]).
  change (json ",'data':{") with (44%N :: quote (str "data") ++ [58%N; LBRACE]).
  change (json ":") with [58%N]. change (json "}}") with [RBRACE; RBRACE].
  repeat first [rewrite <- app_assoc | progress cbn [app]].
  rewrite parse_value_object.
  rewrite (parse_members_next _ _ _ _ _ _ (parses_as_string (str cmd))).
  rewrite parse_members_last_nested. reflexivity.
Qed.

(** X7.  On a connected transport [auth(email)] and [resume(token)]
    write one frame each, for every string argument (the empty string
    and strings with quotes or control characters included: nothing is
    validated), and leave the client as it was.  The frame is the UTF-8
    encoding of a text that [JSON.parse] reads back as
    [{cmd, data: {email}}], respectively [{cmd, data: {token}}]. *)
Theorem auth_resume_wire
    (c : Client) (w : Handle) (v : jsstring) (write_result : Completion unit) :
  Transport.connected (wmtpTransport c) = true ->
  Transport.writer (wmtpTransport c) = Some w ->
  (let out := auth (JString v) write_result c in
   state_of out = c /\ result_of out = write_result /\
   writes (trace_of out) = [(w, utf8_encode (request_text "AUTH" "email" v))]) /\
  (let out := resume (JString v) write_result c in
   state_of out = c /\ result_of out = write_result /\
   writes (trace_of out) = [(w, utf8_encode (request_text "RESUME" "token" v))]) /\
  JSON_parse (request_text "AUTH" "email" v) =
    Some (JObject [(str "cmd", JString (str "AUTH"));
                   (str "data", JObject [(str "email", JString v)])]) /\
  JSON_parse (request_text "RESUME" "token" v) =
    Some (JObject [(str "cmd", JString (str "RESUME"));
                   (str "data", JObject [(str "token", JString v)])]).
Proof.
  intros C W.
  destruct (send_connected c w (request_with "AUTH" "email" (JString v))
              write_result C W) as (A1 & A2 & A3).
  destruct (send_connected c w (request_with "RESUME" "token" (JString v))
              write_result C W) as (R1 & R2 & R3).
  split; [|split; [|split]].
  - split; [exact A1|]. split; [exact A2|].
    unfold auth. rewrite A3. unfold request_with at 1. cbv iota.
    rewrite (stringify_request_with "AUTH" "email" v). reflexivity.
  - split; [exact R1|]. split; [exact R2|].
    unfold resume. rewrite R3. unfold request_with at 1. cbv iota.
    rewrite (stringify_request_with "RESUME" "token" v). reflexivity.
  - exact (parse_request_text "AUTH" "email" v).
  - exact (parse_request_text "RESUME" "token" v).
Qed.

Lemma auth_resume_wire_witness :
  let c := {| wmtpTransport := TransportSpec.live;
              wmtpProtocol := Protocol.constructor;
              localStorage := [] |} in
  (let out := auth (JString []) (Return tt) c in
   state_of out = c /\ result_of out = Return tt /\
   writes (trace_of out) = [(8, utf8_encode (json "{'cmd':'AUTH','data':{'email':''}}"))]) /\
  (let out := resume (JString []) (Return tt) c in
   state_of out = c /\ result_of out = Return tt /\
   writes (trace_of out) = [(8, utf8_encode (json "{'cmd':'RESUME','data':{'token':''}}"))]) /\
  JSON_parse (json "{'cmd':'AUTH','data':{'email':''}}") =
    Some (JObject [(str "cmd", JString (str "AUTH"));
                   (str "data", JObject [(str "email", JString [])])]) /\
  JSON_parse (json "{'cmd':'RESUME','data':{'token':''}}") =
    Some (JObject [(str "cmd", JString (str "RESUME"));
                   (str "data", JObject [(str "token", JString [])])]).
Proof.
  apply (auth_resume_wire
           {| wmtpTransport := TransportSpec.live;
              wmtpProtocol := Protocol.constructor;
              localStorage := [] |} 8 [] (Return tt)); reflexivity.
Defined.

(** X8.  On a connected transport [logout] puts on the wire the token
    the session holds when it is called, in a frame that reads back as
    [{cmd: LOGOUT, data: {token}}], whether or not the write then
    succeeds; once the write has succeeded the token is gone from the
    session. *)
Theorem logout_sends_current_token
    (c : Client) (w : Handle) (t : jsstring) (write_result : Completion unit) :
  Transport.connected (wmtpTransport c) = true ->
  Transport.writer (wmtpTransport c) = Some w ->
  sessionToken (wmtpProtocol c) = JString t ->
  let out := logout write_result c in
  writes (trace_of out) = [(w, utf8_encode (request_text "LOGOUT" "token" t))] /\
  JSON_parse (request_text "LOGOUT" "token" t) =
    Some (JObject [(str "cmd", JString (str "LOGOUT"));
                   (str "data", JObject [(str "token", JString t)])]) /\
  (write_result = Return tt -> sessionToken (wmtpProtocol (state_of out)) = JNull).
Proof.
  intros C W T out. subst out.
  split; [|split; [exact (parse_request_text "LOGOUT" "token" t)|]].
  - run_command.
    cbn -[JSON_stringify TextEncoder_encode utf8_encode request_text request_with str].
    rewrite C, W, T.
    destruct write_result as [[]|e];
      cbn -[JSON_stringify TextEncoder_encode utf8_encode request_text request_with str];
      unfold request_with at 1; cbv iota;
      rewrite (stringify_request_with "LOGOUT" "token" t); reflexivity.
  - intros ->. run_command.
    cbn -[JSON_stringify TextEncoder_encode utf8_encode request_text request_with str].
    rewrite C, W.
    cbn -[JSON_stringify TextEncoder_encode utf8_encode request_text request_with str].
    reflexivity.
Qed.

Lemma logout_sends_current_token_witness :
  let c := {| wmtpTransport := TransportSpec.live;
              wmtpProtocol := signed_in;
              localStorage := [] |} in
  let out := logout (Return tt) c in
  writes (trace_of out) =
    [(8, utf8_encode (json "{'cmd':'LOGOUT','data':{'token':'OLD'}}"))] /\
  JSON_parse (json "{'cmd':'LOGOUT','data':{'token':'OLD'}}") =
    Some (JObject [(str "cmd", JString (str "LOGOUT"));
                   (str "data", JObject [(str "token", JString (str "OLD"))])]) /\
  (Return tt = Return tt -> sessionToken (wmtpProtocol (state_of out)) = JNull).
Proof.
  apply (logout_sends_current_token
           {| wmtpTransport := TransportSpec.live;
              wmtpProtocol := signed_in;
              localStorage := [] |} 8 (str "OLD") (Return tt)); reflexivity.
Defined.

(** X9.  While the transport is not connected (or has no writer) every
    command fails in the same way: it throws [Not connected], writes
    nothing, logs nothing and leaves transport, session and storage as
    they were. *)
Theorem commands_need_connection
    (c : Client) (arg : JSValue) (write_result : Completion unit) :
  Transport.connected (wmtpTransport c) = false \/
  Transport.writer (wmtpTransport c) = None ->
  let failed := (c, [], Throw (Error "Not connected")) in
  (forall command, send command write_result c = failed) /\
  init write_result c = failed /\
  auth arg write_result c = failed /\
  resume arg write_result c = failed /\
  ping write_result c = failed /\
  status write_result c = failed /\
  info write_result c = failed /\
  logout write_result c = failed.
Proof.
  intros H failed. subst failed.
  assert (S : forall command,
            send command write_result c = (c, [], Throw (Error "Not connected"))).
  { intros command. run_command. destruct c as [t p st]. cbn in *.
    destruct H as [H|H]; rewrite H;
      [|destruct (Transport.connected t)]; reflexivity. }
  repeat split; try apply S.
  run_command. destruct c as [t p st].
  cbn -[JSON_stringify TextEncoder_encode] in *.
  destruct H as [H|H]; rewrite H;
    [|destruct (Transport.connected t)]; reflexivity.
Qed.

Lemma commands_need_connection_witness :
  let failed := (offline_client, [], Throw (Error "Not connected")) in
  (forall command, send command (Return tt) offline_client = failed) /\
  init (Return tt) offline_client = failed /\
  auth (JString (str "user@example.com")) (Return tt) offline_client = failed /\
  resume (JString (str "user@example.com")) (Return tt) offline_client = failed /\
  ping (Return tt) offline_client = failed /\
  status (Return tt) offline_client = failed /\
  info (Return tt) offline_client = failed /\
  logout (Return tt) offline_client = failed.
Proof.
  apply (commands_need_connection offline_client
           (JString (str "user@example.com")) (Return tt)).
  left. reflexivity.
Defined.

(** X10.  On a connected transport [init], [ping], [status] and [info]
    each write one frame, the UTF-8 encoding of [{"cmd":"INIT"}],
    [{"cmd":"PING"}], [{"cmd":"STATUS"}], [{"cmd":"INFO"}], and leave
    the client as it was; the call completes as the write does. *)
Theorem plain_commands_wire
    (c : Client) (w : Handle) (write_result : Completion unit) :
  Transport.connected (wmtpTransport c) = true ->
  Transport.writer (wmtpTransport c) = Some w ->
  let frame (out : Client * list Event * Completion unit) (text : jsstring) :=
    state_of out = c /\ result_of out = write_result /\
    writes (trace_of out) = [(w, utf8_encode text)] in
  frame (init write_result c) (json "{'cmd':'INIT'}") /\
  frame (ping write_result c) (json "{'cmd':'PING'}") /\
  frame (status write_result c) (json "{'cmd':'STATUS'}") /\
  frame (info write_result c) (json "{'cmd':'INFO'}").
Proof.
  intros C W frame. subst frame. cbv beta.
  repeat split;
    try apply (proj1 (send_connected c w _ write_result C W));
    try apply (proj1 (proj2 (send_connected c w _ write_result C W)));
    unfold init, ping, status, info;
    rewrite (proj2 (proj2 (send_connected c w _ write_result C W)));
    reflexivity.
Qed.

Lemma plain_commands_wire_witness :
  let c := {| wmtpTransport := TransportSpec.live;
              wmtpProtocol := signed_in;
              localStorage := [] |} in
  let frame (out : Client * list Event * Completion unit) (text : jsstring) :=
    state_of out = c /\ result_of out = Return tt /\
    writes (trace_of out) = [(8, utf8_encode text)] in
  frame (init (Return tt) c) (json "{'cmd':'INIT'}") /\
  frame (ping (Return tt) c) (json "{'cmd':'PING'}") /\
  frame (status (Return tt) c) (json "{'cmd':'STATUS'}") /\
  frame (info (Return tt) c) (json "{'cmd':'INFO'}").
Proof.
  apply (plain_commands_wire
           {| wmtpTransport := TransportSpec.live;
              wmtpProtocol := signed_in;
              localStorage := [] |} 8 (Return tt)); reflexivity.
Defined.

End Commands.

(* ===================================================================== *)
(** * The saved session *)
(* ===================================================================== *)

Section SavedSession.
Import JS Eff Protocol SessionSpec.

Ltac run_storage :=
  unfold logout, saveSession, loadSession, clearSession, send,
         this, this_transport, storage, zoom, Transport.send,
         when, bind, read, modify, emit, ret, throw, settle,
         state_of, trace_of, result_of;
  cbv beta iota.

Lemma getItem_removeItem_same st k : getItem (removeItem st k) k = None.
Proof.
  induction st as [|[k' v] st IH]; [reflexivity|].
  cbn [removeItem]. destruct (jsstring_eqb k' k) eqn:E; [exact IH|].
  cbn [getItem]. rewrite E. exact IH.
Qed.

Lemma getItem_removeItem_other st k k' :
  jsstring_eqb k k' = false ->
  getItem (removeItem st k) k' = getItem st k'.
Proof.
  intros N. induction st as [|[k0 v] st IH]; [reflexivity|].
  cbn [removeItem getItem].
  destruct (jsstring_eqb k0 k) eqn:E.
  - apply jsstring_eqb_eq in E. subst k0. rewrite N. exact IH.
  - cbn [getItem]. rewrite IH. reflexivity.
Qed.

(** X11.  [loadSession] reads only: it never throws, writes nothing and
    leaves the client as it was.  It returns [null] when nothing is
    stored under [wmtp_session], when the stored text is empty and when
    it does not parse; otherwise it returns what the text parses to,
    whatever that value is. *)
Theorem loadSession_reads_only (c : Client) :
  let out := loadSession c in
  let stored := getItem (localStorage c) SESSION_KEY in
  state_of out = c /\
  trace_of out = [] /\
  (exists v, result_of out = Return v) /\
  (stored = None \/ stored = Some [] -> result_of out = Return JNull) /\
  (forall text, stored = Some text -> JSON_parse text = None ->
                result_of out = Return JNull) /\
  (forall text v, stored = Some text -> JSON_parse text = Some v ->
                  result_of out = Return v).
Proof.
  intros out stored. subst out stored. run_storage.
  destruct c as [t p st]. cbn [localStorage].
  assert (K : forall (o : option jsstring) (r : Completion JSValue),
             (exists v, r = Return v) ->
             (o = None \/ o = Some [] -> r = Return JNull) ->
             (forall text, o = Some text -> JSON_parse text = None ->
                           r = Return JNull) ->
             (forall text v, o = Some text -> JSON_parse text = Some v ->
                             r = Return v) ->
             (exists v, r = Return v) /\
             (o = None \/ o = Some [] -> r = Return JNull) /\
             (forall text, o = Some text -> JSON_parse text = None ->
                           r = Return JNull) /\
             (forall text v, o = Some text -> JSON_parse text = Some v ->
                             r = Return v)) by (intros; repeat split; assumption).
  destruct (getItem st SESSION_KEY) as [[|ch saved]|] eqn:G.
  - cbn. split; [reflexivity|]. split; [reflexivity|]. apply K.
    + eexists; reflexivity.
    + reflexivity.
    + reflexivity.
    + intros text v E P. inversion E; subst. discriminate P.
  - destruct (JSON_parse (ch :: saved)) as [v|] eqn:P; cbn;
      (split; [reflexivity|]); (split; [reflexivity|]); apply K;
      try (eexists; reflexivity);
      try (intros [H|H]; discriminate H);
      try (intros text E P'; inversion E; subst; congruence);
      try (intros text v' E P'; inversion E; subst; congruence).
  - cbn. split; [reflexivity|]. split; [reflexivity|]. apply K.
    + eexists; reflexivity.
    + reflexivity.
    + reflexivity.
    + intros; discriminate.
Qed.

(** X12.  After [clearSession], [loadSession] returns [null] whatever
    was stored; [clearSession] and [saveSession] change no other key of
    the store. *)
Theorem clearSession_forgets (c : Client) :
  let cleared := clearSession c in
  result_of cleared = Return tt /\
  result_of (loadSession (state_of cleared)) = Return JNull /\
  wmtpProtocol (state_of cleared) = wmtpProtocol c /\
  (forall k, jsstring_eqb SESSION_KEY k = false ->
     getItem (localStorage (state_of cleared)) k = getItem (localStorage c) k /\
     getItem (localStorage (state_of (saveSession c))) k = getItem (localStorage c) k).
Proof.
  intros cleared. subst cleared. run_storage.
  destruct c as [t p st]. cbn [fst snd localStorage wmtpProtocol app].
  rewrite getItem_removeItem_same. repeat split.
  - apply getItem_removeItem_other. assumption.
  - destruct (truthy (sessionToken p)); cbn [fst snd localStorage]; [|reflexivity].
    unfold setItem. cbn [getItem]. rewrite H.
    apply getItem_removeItem_other. assumption.
Qed.

Lemma loadSession_store (c c' : Client) :
  localStorage c = localStorage c' ->
  result_of (loadSession c) = result_of (loadSession c').
Proof.
  destruct c as [t p st], c' as [t' p' st']. cbn [localStorage].
  intros <-. run_storage. cbn [localStorage].
  destruct (getItem st SESSION_KEY) as [[|ch saved]|]; try reflexivity.
  destruct (JSON_parse (ch :: saved)); reflexivity.
Qed.

(** X13.  [logout] does not touch the store: after it, sent or not,
    [loadSession] returns what it returned before, and a [saveSession]
    that follows a successful [logout] writes nothing, so the record
    saved earlier stays until [clearSession] is called. *)
Theorem logout_keeps_saved_session
    (c : Client) (write_result : Completion unit) :
  let out := logout write_result c in
  localStorage (state_of out) = localStorage c /\
  result_of (loadSession (state_of out)) = result_of (loadSession c) /\
  (forall r, result_of out = Return r ->
     saveSession (state_of out) = (state_of out, [], Return tt)).
Proof.
  intros out.
  assert (L : localStorage (state_of out) = localStorage c).
  { subst out. run_storage. destruct c as [t p st].
    cbn -[JSON_stringify TextEncoder_encode].
    destruct (Transport.connected t); [destruct (Transport.writer t) as [w|]|];
      [destruct write_result as [[]|e]| |]; reflexivity. }
  split; [exact L|]. split; [apply loadSession_store; exact L|].
  subst out. clear L. run_storage. destruct c as [t p st].
  cbn -[JSON_stringify TextEncoder_encode].
  destruct (Transport.connected t); [destruct (Transport.writer t) as [w|]|];
    [destruct write_result as [[]|e]| |];
    cbn -[JSON_stringify TextEncoder_encode];
    intros r E; try discriminate E; reflexivity.
Qed.

End SavedSession.

(* ===================================================================== *)
(** * The life of a connection *)
(* ===================================================================== *)

Section ConnectionLife.
Import JS Eff Transport TransportSpec LifecycleSpec.

Ltac run_life :=
  unfold connect, disconnect, closed_then, closed_catch, _handleDisconnect,
         setCertificateHash, isConnected,
         Transport.send, try_catch, when, bind, read, modify, emit, ret,
         throw, settle, state_of, trace_of, result_of;
  cbv beta iota.

Ltac recall :=
  repeat match goal with
         | H : ?f ?t = ?b |- context [?f ?t] => rewrite H
         end.

Ltac by_browser env t :=
  destruct env as [defd at_ nw rd st];
  cbn [WebTransport_defined Transport.atob new_WebTransport ready
       createBidirectionalStream] in *;
  destruct defd; cbn;
  [destruct (has_certHash t) eqn:?; cbn;
     [destruct at_ as [[]|ea]; cbn|];
     (destruct nw as [h'|en]; cbn;
      [destruct rd as [[]|er]; cbn; [destruct st as [[w' r']|es]; cbn|]|])|];
  recall; cbn;
  destruct (onError t) eqn:?; cbn; recall; cbn;
  destruct (onConnect t) eqn:?; cbn; recall; cbn.

(** X14.  When every step succeeds [connect] returns [true] with
    [transport], [writer] and [reader] set to the objects the browser
    gave and [connected] set; handlers and certificate hash are kept.
    It constructs one connection object, starts one read loop, watches
    [closed] once, invokes [onConnect] once and [onError] not at all.
    It closes nothing: on a transport that already holds a connection
    the old objects are replaced, not closed. *)
Theorem connect_success
    (url : jsstring) (env : ConnectEnv) (t : WMTPTransport) (h w r : Handle) :
  WebTransport_defined env = true ->
  (has_certHash t = true -> atob env = Return tt) ->
  new_WebTransport env = Return h ->
  ready env = Return tt ->
  createBidirectionalStream env = Return (w, r) ->
  let out := connect url env t in
  result_of out = Return true /\
  state_of out =
    {| transport := Some h; writer := Some w; reader := Some r;
       connected := true; onMessage := onMessage t; onConnect := onConnect t;
       onDisconnect := onDisconnect t; onError := onError t;
       certHash := certHash t |} /\
  opened (trace_of out) = [(url, has_certHash t)] /\
  started (trace_of out) = [StartReading; WatchClosed h] /\
  closes (trace_of out) = [] /\
  calls TransportOnConnect (trace_of out) = (if onConnect t then [NoArg] else []) /\
  calls TransportOnError (trace_of out) = [].
Proof.
  intros D A N R C out. subst out. run_life.
  destruct env as [defd at_ nw rd st].
  cbn [WebTransport_defined Transport.atob new_WebTransport ready
       createBidirectionalStream] in *.
  subst defd nw rd st.
  destruct t as [tr0 w0 r0 cn om oc od oe ch].
  unfold has_certHash in *. cbn [certHash] in *.
  destruct ch as [[|c ch]|]; cbn;
    try (rewrite (A eq_refl); cbn);
    destruct oc; cbn; repeat split.
Qed.

Lemma connect_success_witness :
  let out := connect server_url all_succeed live in
  result_of out = Return true /\
  state_of out =
    {| transport := Some 17; writer := Some 18; reader := Some 19;
       connected := true; onMessage := true; onConnect := true;
       onDisconnect := true; onError := true; certHash := None |} /\
  opened (trace_of out) = [(server_url, false)] /\
  started (trace_of out) = [StartReading; WatchClosed 17] /\
  closes (trace_of out) = [] /\
  calls TransportOnConnect (trace_of out) = [NoArg] /\
  calls TransportOnError (trace_of out) = [].
Proof.
  apply (connect_success server_url all_succeed live 17 18 19);
    reflexivity.
Defined.

(** X15.  [connect] either returns [true], with [connected] set, or
    throws, with [connected] as it was: it never returns [false].  It
    never calls [close()], constructs at most one connection object and
    starts a read loop only when it returns. *)
Theorem connect_true_or_throws
    (url : jsstring) (env : ConnectEnv) (t : WMTPTransport) :
  let out := connect url env t in
  closes (trace_of out) = [] /\
  length (opened (trace_of out)) <= 1 /\
  ((result_of out = Return true /\ connected (state_of out) = true /\
    exists h, started (trace_of out) = [StartReading; WatchClosed h]) \/
   (exists e, result_of out = Throw e /\
              connected (state_of out) = connected t /\
              started (trace_of out) = [])).
Proof.
  intros out. subst out. run_life.
  by_browser env t;
    (split; [reflexivity|]); (split; [lia|]);
    first [ left; repeat split; eexists; reflexivity
          | right; eexists; repeat split ].
Qed.

(** X16.  A [connect] that fails after the connection object was
    constructed leaves that object in [transport]; a [disconnect] that
    follows calls [close()] on it and resets the field, whatever
    [close()] does. *)
Theorem failed_connect_then_disconnect
    (url : jsstring) (env : ConnectEnv) (t : WMTPTransport)
    (h : Handle) (e : Exn) (close_result : Completion unit) :
  reaches_constructor env t = true ->
  new_WebTransport env = Return h ->
  result_of (connect url env t) = Throw e ->
  let failed := state_of (connect url env t) in
  let out := disconnect close_result failed in
  transport failed = Some h /\
  result_of out = Return tt /\
  closes (trace_of out) = [h] /\
  transport (state_of out) = None /\
  connected (state_of out) = false.
Proof.
  intros RC N F failed out. subst failed out. revert RC F.
  unfold reaches_constructor. run_life.
  destruct env as [defd at_ nw rd st].
  cbn [WebTransport_defined Transport.atob new_WebTransport ready
       createBidirectionalStream] in *.
  subst nw.
  destruct defd; cbn; [|discriminate].
  destruct (has_certHash t) eqn:HC; cbn;
    [destruct at_ as [[]|ea]; cbn; [|discriminate]|];
    intros _;
    (destruct rd as [[]|er]; cbn; [destruct st as [[w' r']|es]; cbn|]);
    rewrite ?HC; cbn;
    destruct (onError t) eqn:HE, (onConnect t) eqn:HO; cbn;
    rewrite ?HO, ?HE; cbn;
    intros F; try discriminate F;
    destruct close_result as [[]|ce], (onDisconnect t) eqn:HD; cbn;
    rewrite ?HD; cbn; repeat split.
Qed.

Lemma failed_connect_then_disconnect_witness :
  let failed := state_of (connect server_url handshake_fails watched) in
  let out := disconnect (Throw (HostError "closed already")) failed in
  transport failed = Some 7 /\
  result_of out = Return tt /\
  closes (trace_of out) = [7] /\
  transport (state_of out) = None /\
  connected (state_of out) = false.
Proof.
  apply (failed_connect_then_disconnect server_url handshake_fails watched 7
           (HostError "handshake failed")); reflexivity.
Defined.

(** X17.  [disconnect] never throws, also when [close()] does; it calls
    [close()] on the object in [transport] and on nothing else (on
    nothing when the field is [null]).  Afterwards [isConnected()] is
    [false] and [send] throws [Not connected] without writing.  The
    handlers of [transport.closed] reach the same state without calling
    [close()]. *)
Theorem disconnect_closes_and_disables
    (t : WMTPTransport) (close_result write_result : Completion unit)
    (data : JSValue) (err : Exn) :
  let out := disconnect close_result t in
  result_of out = Return tt /\
  closes (trace_of out) =
    match transport t with Some h => [h] | None => [] end /\
  isConnected (state_of out) = false /\
  send data write_result (state_of out) =
    (state_of out, [], Throw (Error "Not connected")) /\
  state_of (closed_then t) = state_of out /\
  state_of (closed_catch err t) = state_of out /\
  closes (trace_of (closed_then t)) = [] /\
  closes (trace_of (closed_catch err t)) = [].
Proof.
  intros out. subst out. run_life.
  destruct t as [tr w r cn om oc od oe ch].
  destruct tr as [h|], close_result as [[]|ce], od; cbn; repeat split.
Qed.

(** X18.  The certificate hash given to [setCertificateHash] is used by
    the next [connect] when it is a non-empty string: the connection
    object is then constructed with [serverCertificateHashes], after the
    hash was decoded, and not constructed at all when decoding throws.
    With [null] or the empty string the object is constructed without
    the option and nothing is decoded. *)
Theorem certificate_hash_pins
    (url : jsstring) (env : ConnectEnv) (t : WMTPTransport)
    (hash : option jsstring) :
  WebTransport_defined env = true ->
  let t' := state_of (setCertificateHash hash t) in
  let out := connect url env t' in
  match hash with
  | Some (_ :: _) =>
      match atob env with
      | Return _ => opened (trace_of out) = [(url, true)]
      | Throw e =>
          opened (trace_of out) = [] /\ result_of out = Throw e /\
          transport (state_of out) = transport t
      end
  | _ =>
      opened (trace_of out) = [(url, false)] /\
      forall decoded, connect url (with_atob decoded env) t' = out
  end.
Proof.
  intros D t' out. subst t' out. unfold with_atob. run_life.
  destruct env as [defd at_ nw rd st].
  cbn [WebTransport_defined Transport.atob new_WebTransport ready
       createBidirectionalStream] in *.
  subst defd. unfold has_certHash. cbn [certHash].
  destruct hash as [[|c hash]|]; cbn;
    try (destruct at_ as [[]|ea]; cbn);
    (destruct nw as [h'|en]; cbn;
     [destruct rd as [[]|er]; cbn; [destruct st as [[w' r']|es]; cbn|]|]);
    destruct (onError t), (onConnect t); cbn; repeat split.
Qed.

Lemma certificate_hash_pins_witness :
  let t' := state_of (setCertificateHash (Some (str "not base64!")) watched) in
  let out := connect server_url bad_hash t' in
  opened (trace_of out) = [] /\
  result_of out = Throw (HostError "InvalidCharacterError") /\
  transport (state_of out) = None.
Proof.
  apply (certificate_hash_pins server_url bad_hash watched
           (Some (str "not base64!"))).
  reflexivity.
Defined.

End ConnectionLife.

(* ===================================================================== *)
(** * Chunks of any number of messages *)
(* ===================================================================== *)

Section Chunks.
Import JS Eff Transport TransportSpec FramingSpec.

Variable St : Type.

Lemma split_scan_nonempty s : forall cur, split_scan cur s <> [].
Proof.
  induction s as [|c r IH]; intros cur.
  - simp split_scan. discriminate.
  - rewrite split_scan_cons.
    destruct (match_boundary (c :: r)); [discriminate | apply IH].
Qed.

Lemma parsed_dropped_length subs :
  length (parsed subs) + length (dropped subs) = length subs.
Proof.
  induction subs as [|j subs IH]; [reflexivity|].
  unfold parsed, dropped in *. cbn [flat_map].
  rewrite !length_app. destruct (JSON_parse j); cbn [length]; lia.
Qed.

Lemma dropped_are_warnings subs :
  Forall (fun e => exists j, e = warning j /\ In j subs /\ JSON_parse j = None)
         (dropped subs).
Proof.
  induction subs as [|j subs IH]; [constructor|].
  unfold dropped in *. cbn [flat_map].
  assert (IH' : Forall (fun e => exists j0, e = warning j0 /\ In j0 (j :: subs) /\
                                            JSON_parse j0 = None)
                       (flat_map (fun j => match JSON_parse j with
                                           | Some _ => []
                                           | None => [warning j]
                                           end) subs)).
  { eapply Forall_impl; [|exact IH].
    intros e (j0 & E & I & P). exists j0. repeat split; auto. right. exact I. }
  destruct (JSON_parse j) eqn:P; cbn [app]; [exact IH'|].
  constructor; [|exact IH'].
  exists j. repeat split; auto. left. reflexivity.
Qed.

Lemma parsed_are_values subs :
  Forall (fun v => exists j, In j subs /\ JSON_parse j = Some v) (parsed subs).
Proof.
  induction subs as [|j subs IH]; [constructor|].
  unfold parsed in *. cbn [flat_map].
  assert (IH' : Forall (fun v => exists j0, In j0 (j :: subs) /\
                                            JSON_parse j0 = Some v)
                       (flat_map (fun j => match JSON_parse j with
                                           | Some v => [v]
                                           | None => []
                                           end) subs)).
  { eapply Forall_impl; [|exact IH].
    intros v (j0 & I & P). exists j0. split; auto. right. exact I. }
  destruct (JSON_parse j) as [v|] eqn:P; cbn [app]; [|exact IH'].
  constructor; [|exact IH'].
  exists j. split; auto. left. reflexivity.
Qed.

Lemma substrings_length text :
  length (substrings text) = length (split_boundary (trim text)).
Proof.
  unfold substrings. rewrite length_map, length_combine, length_seq.
  apply Nat.min_id.
Qed.

Lemma parsed_has_values subs j v :
  In j subs -> JSON_parse j = Some v -> In v (parsed subs).
Proof.
  intros I P. unfold parsed. apply in_flat_map. exists j.
  rewrite P. split; [exact I | left; reflexivity].
Qed.

Lemma dropped_has_warnings subs j :
  In j subs -> JSON_parse j = None -> In (warning j) (dropped subs).
Proof.
  intros I P. unfold dropped. apply in_flat_map. exists j.
  rewrite P. split; [exact I | left; reflexivity].
Qed.

(** X19.  [_parseMessages] never throws and leaves [this] alone.  The
    split gives at least one substring.  The result is exactly the
    values of the substrings that [JSON.parse] accepts, one for each
    and in the order of the substrings; the diagnostics are exactly one
    [Parse error] about each substring it rejects, in that order.  So
    every substring is accounted for once: by its value in the result,
    or by its diagnostic. *)
Theorem parseMessages_accounts (text : jsstring) (s : St) :
  let out := _parseMessages text s in
  let subs := substrings text in
  state_of out = s /\
  result_of out = Return (parsed subs) /\
  trace_of out = dropped subs /\
  1 <= length subs /\
  length (parsed subs) + length (dropped subs) = length subs /\
  (forall j, In j subs ->
     match JSON_parse j with
     | Some v => In v (parsed subs)
     | None => In (warning j) (dropped subs)
     end) /\
  Forall (fun v => exists j, In j subs /\ JSON_parse j = Some v) (parsed subs) /\
  Forall (fun e => exists j, e = warning j /\ In j subs /\ JSON_parse j = None)
         (dropped subs).
Proof.
  intros out subs. subst out subs. rewrite _parseMessages_spec.
  unfold state_of, trace_of, result_of. cbn [fst snd].
  split; [reflexivity|]. split; [reflexivity|]. split; [reflexivity|]. split.
  - rewrite substrings_length. unfold split_boundary.
    pose proof (split_scan_nonempty (trim text) []) as N.
    destruct (split_scan [] (trim text)); [contradiction | cbn; lia].
  - split; [apply parsed_dropped_length|]. split.
    + intros j I. destruct (JSON_parse j) as [v|] eqn:P.
      * apply (parsed_has_values _ j v I P).
      * apply (dropped_has_warnings _ j I P).
    + split; [apply parsed_are_values | apply dropped_are_warnings].
Qed.

Lemma split_boundary_quiet s :
  has_boundary s = false -> split_boundary s = [s].
Proof.
  intros H. unfold split_boundary.
  rewrite <- (app_nil_r s) at 1. rewrite split_scan_through.
  - simp split_scan. rewrite app_nil_r, rev_involutive. reflexivity.
  - intros u v E V. rewrite app_nil_r.
    apply (has_boundary_suffix u v). rewrite <- E. exact H.
Qed.

(** X20.  A chunk in which, once trimmed, no closing brace is followed
    by optional white space and an opening brace is handed to
    [JSON.parse] whole: the result is the one value it parses to,
    whatever kind of value that is, or no message and one diagnostic.
    An empty chunk and one of white space are of this kind. *)
Theorem chunk_without_boundary (text : jsstring) (s : St) :
  has_boundary (trim text) = false ->
  substrings text = [trim text] /\
  _parseMessages text s =
    match JSON_parse (trim text) with
    | Some v => (s, [], Return [v])
    | None => (s, [warning (trim text)], Return [])
    end.
Proof.
  intros H.
  assert (E : substrings text = [trim text]).
  { unfold substrings. rewrite (split_boundary_quiet _ H). reflexivity. }
  split; [exact E|].
  rewrite _parseMessages_spec, E. unfold parsed, dropped. cbn [flat_map].
  destruct (JSON_parse (trim text)); reflexivity.
Qed.

(** *** Any number of objects *)

Lemma quiet_braced b : has_boundary (braced b) = false -> quiet (LBRACE :: b).
Proof.
  intros H u v E V.
  apply (has_boundary_suffix u (v ++ [RBRACE])).
  rewrite app_assoc, <- E. exact H.
Qed.

Lemma quiet_tail c pre : quiet (c :: pre) -> quiet pre.
Proof.
  intros Q u v E V. apply (Q (c :: u) v); [rewrite E; reflexivity | exact V].
Qed.

Lemma split_scan_boundary pre ws rest cur :
  quiet pre -> forallb is_space ws = true ->
  split_scan cur (pre ++ RBRACE :: ws ++ LBRACE :: rest) =
  (rev cur ++ pre) :: split_scan [] rest.
Proof.
  intros Q W. rewrite split_scan_through.
  - rewrite split_scan_cons. cbn [match_boundary].
    change (N.eqb RBRACE RBRACE) with true. cbv iota.
    rewrite (skip_space_spaces ws LBRACE _ W eq_refl).
    change (N.eqb LBRACE LBRACE) with true. cbv iota.
    rewrite rev_app_distr, rev_involutive. reflexivity.
  - intros u v E V.
    apply (match_boundary_tail v RBRACE [] _ V eq_refl).
    apply (Q u v E V).
Qed.

Lemma split_scan_last pre cur :
  quiet pre -> split_scan cur (pre ++ [RBRACE]) = [rev cur ++ pre ++ [RBRACE]].
Proof.
  intros Q. rewrite split_scan_through.
  - rewrite split_scan_cons. cbn [match_boundary skip_space].
    change (N.eqb RBRACE RBRACE) with true. cbv iota.
    simp split_scan. cbn [rev].
    rewrite rev_app_distr, rev_involutive, <- app_assoc. reflexivity.
  - intros u v E V. apply (Q u v E V).
Qed.

Lemma split_scan_run more :
  forall pre cur,
    quiet pre -> forallb well_spaced more = true ->
    split_scan cur (run_after pre more) = pieces (rev cur ++ pre) more.
Proof.
  induction more as [|[ws b] more IH]; intros pre cur Q W.
  - cbn [run_after pieces]. rewrite split_scan_last by exact Q.
    rewrite app_assoc. reflexivity.
  - cbn [forallb] in W. apply andb_true_iff in W as [W1 W].
    unfold well_spaced in W1. cbn [fst snd] in W1.
    apply andb_true_iff in W1 as [Ws Hb]. apply negb_true_iff in Hb.
    cbn [run_after pieces fst snd].
    rewrite split_scan_boundary by assumption.
    rewrite IH; [reflexivity | | exact W].
    apply (quiet_tail LBRACE). apply quiet_braced. exact Hb.
Qed.

Lemma run_after_cons c pre more :
  run_after (c :: pre) more = c :: run_after pre more.
Proof. destruct more; reflexivity. Qed.

Lemma run_after_ends more :
  forall pre, exists core, run_after pre more = core ++ [RBRACE].
Proof.
  induction more as [|[ws b] more IH]; intros pre.
  - exists pre. reflexivity.
  - destruct (IH b) as (core & E). cbn [run_after fst snd]. rewrite E.
    exists (pre ++ RBRACE :: ws ++ LBRACE :: core).
    repeat first [rewrite <- app_assoc | progress cbn [app]]. reflexivity.
Qed.

Lemma run_of_run_after more :
  forall ws b, run_of ((ws, b) :: more) = ws ++ LBRACE :: run_after b more.
Proof.
  induction more as [|[ws' b'] more IH]; intros ws b.
  - unfold run_of, braced. cbn. rewrite app_nil_r. reflexivity.
  - change (run_of ((ws, b) :: (ws', b') :: more))
      with ((ws ++ braced b) ++ run_of ((ws', b') :: more)).
    rewrite IH. unfold braced. cbn [run_after fst snd].
    repeat first [rewrite <- app_assoc | progress cbn [app]]. reflexivity.
Qed.

Lemma pieces_length more : forall pre, length (pieces pre more) = S (length more).
Proof.
  induction more as [|item more IH]; intros pre; [reflexivity|].
  cbn [pieces length]. rewrite IH. reflexivity.
Qed.

Lemma rebrace_pieces more :
  forall pre i n,
    n = i + S (length more) ->
    map (fun ip => rebrace n (fst ip) (snd ip))
        (combine (seq i (S (length more))) (pieces pre more)) =
    ((if 0 <? i then LBRACE :: pre else pre) ++ [RBRACE]) ::
    map (fun item => braced (snd item)) more.
Proof.
  induction more as [|[ws b] more IH]; intros pre i n N.
  - cbn [length seq pieces combine map fst snd]. unfold rebrace.
    replace (i <? n - 1) with false
      by (symmetry; apply Nat.ltb_ge; cbn [length] in N; lia).
    destruct (0 <? i); reflexivity.
  - cbn [length] in *. remember (S (length more)) as k eqn:K.
    cbn [seq pieces combine map fst snd]. subst k.
    rewrite (IH b (S i) n) by lia.
    unfold rebrace at 1.
    replace (i <? n - 1) with true by (symmetry; apply Nat.ltb_lt; lia).
    change (0 <? S i) with true. cbv iota. unfold braced.
    destruct (0 <? i); reflexivity.
Qed.

(** X21.  Any number of serialised objects in one chunk, each from its
    opening to its closing brace and none containing a closing brace
    followed by optional white space and an opening brace, with optional
    white space before, between and after them, are split into exactly
    these texts, in order; [_parseMessages] returns those that parse, in
    order, and all of them without a diagnostic when all parse. *)
Theorem messages_in_one_chunk
    (items : list (jsstring * jsstring)) (after : jsstring) (s : St) :
  items <> [] ->
  forallb well_spaced items = true ->
  forallb is_space after = true ->
  let chunk := run_of items ++ after in
  let texts := map (fun item => braced (snd item)) items in
  substrings chunk = texts /\
  _parseMessages chunk s = (s, dropped texts, Return (parsed texts)) /\
  (forall messages, map JSON_parse texts = map Some messages ->
     _parseMessages chunk s = (s, [], Return messages)).
Proof.
  intros NE W A chunk texts.
  destruct items as [|[ws b] more]; [contradiction|].
  cbn [forallb] in W. apply andb_true_iff in W as [W1 W].
  unfold well_spaced in W1. cbn [fst snd] in W1.
  apply andb_true_iff in W1 as [Ws Hb]. apply negb_true_iff in Hb.
  assert (T : trim chunk = LBRACE :: run_after b more).
  { unfold chunk. rewrite run_of_run_after.
    destruct (run_after_ends more b) as (core & E). rewrite E.
    rewrite <- app_assoc.
    apply trim_padded; assumption. }
  assert (S : substrings chunk = texts).
  { unfold substrings. rewrite T. unfold split_boundary.
    rewrite <- run_after_cons.
    rewrite split_scan_run; [|apply quiet_braced; exact Hb | exact W].
    cbn [rev app]. rewrite pieces_length.
    rewrite (rebrace_pieces more (LBRACE :: b) 0 (S (length more)) eq_refl).
    reflexivity. }
  split; [exact S|].
  rewrite _parseMessages_spec, S. split; [reflexivity|].
  intros messages P. f_equal; [f_equal|f_equal].
  - clear - P. revert messages P.
    induction texts as [|j texts IH]; intros [|m messages] P;
      try discriminate P; [reflexivity|].
    cbn [map] in P. inversion P as [[P1 P2]].
    unfold dropped in *. cbn [flat_map]. rewrite P1. cbn [app].
    apply (IH messages P2).
  - clear - P. revert messages P.
    induction texts as [|j texts IH]; intros [|m messages] P;
      try discriminate P; [reflexivity|].
    cbn [map] in P. inversion P as [[P1 P2]].
    unfold parsed in *. cbn [flat_map]. rewrite P1. cbn [app].
    f_equal. apply (IH messages P2).
Qed.

End Chunks.

Section ChunkExamples.
Import JS Eff Transport TransportSpec FramingSpec.

Lemma chunk_without_boundary_witness :
  substrings (str "  ") = [[]] /\
  _parseMessages (str "  ") tt = (tt, [warning []], Return []).
Proof.
  apply (chunk_without_boundary unit (str "  ") tt). reflexivity.
Defined.

Lemma messages_in_one_chunk_witness :
  let items := [([32%N], json "'cmd':'PONG'");
                ([], json "'cmd':'HB'");
                ([13%N; 10%N], json "'cmd':'STATUS','data':{'n':1}")] in
  let chunk := run_of items ++ [10%N] in
  let texts := [json "{'cmd':'PONG'}"; json "{'cmd':'HB'}";
                json "{'cmd':'STATUS','data':{'n':1}}"] in
  substrings chunk = texts /\
  _parseMessages chunk tt = (tt, dropped texts, Return (parsed texts)) /\
  (forall messages, map JSON_parse texts = map Some messages ->
     _parseMessages chunk tt = (tt, [], Return messages)).
Proof.
  apply (messages_in_one_chunk unit
           [([32%N], json "'cmd':'PONG'");
            ([], json "'cmd':'HB'");
            ([13%N; 10%N], json "'cmd':'STATUS','data':{'n':1}")] [10%N] tt).
  - discriminate.
  - vm_compute. reflexivity.
  - reflexivity.
Defined.

End ChunkExamples.

(* ===================================================================== *)
(** * The read loop *)
(* ===================================================================== *)

Section Reading.
Import JS Eff Transport TransportSpec ReadLoop ReadSpec.

Ltac run_loop :=
  unfold on_value, zoom, _handleDisconnect,
         try_catch, when, bind, read, modify, emit, ret, throw, settle,
         state_of, trace_of, result_of;
  cbv beta iota.

Lemma calls_app h a b : calls h (a ++ b) = calls h a ++ calls h b.
Proof.
  induction a as [|e a IH]; [reflexivity|].
  destruct e; cbn [app calls]; try exact IH.
  destruct (Hook_beq h hook); [rewrite IH; reflexivity | exact IH].
Qed.

Lemma calls_dropped h subs : calls h (dropped subs) = [].
Proof.
  induction subs as [|j subs IH]; [reflexivity|].
  unfold dropped in *. cbn [flat_map]. rewrite calls_app, IH.
  destruct (JSON_parse j); reflexivity.
Qed.

Section AnyHandler.
Context {St : Type}.
Variable self : St -> WMTPTransport.
Variable put : WMTPTransport -> St -> St.
Variable handler : JSValue -> JSM St unit.

(** X22.  [_startReading] never throws, whatever the reads give and
    whatever the function in [onMessage] does: an exception of a read or
    of the handler ends the loop and is not passed on. *)
Theorem startReading_never_throws (reads : list Read) (s : St) :
  result_of (_startReading self put handler reads s) = Return tt.
Proof.
  unfold _startReading, try_catch, result_of.
  destruct (reading self put handler reads s) as [[s1 tr] [[]|e]];
    [reflexivity|].
  run_loop. destruct (connected (self s1)); reflexivity.
Qed.

Hypothesis handler_leaves_transport :
  forall msg s, self (state_of (handler msg s)) = self s.

Lemma forEach_message_leaves_transport messages :
  forall s, self (state_of (forEach_message handler messages s)) = self s.
Proof.
  induction messages as [|msg rest IH]; intros s; [reflexivity|].
  cbn [forEach_message]. unfold bind, state_of.
  pose proof (handler_leaves_transport msg s) as H. unfold state_of in H.
  destruct (handler msg s) as [[s1 tr1] [[]|e]]; cbn [fst snd] in *.
  - specialize (IH s1). unfold state_of in IH.
    destruct (forEach_message handler rest s1) as [[s2 tr2] r2].
    cbn [fst snd] in *. congruence.
  - exact H.
Qed.

Lemma on_value_leaves_transport message s :
  self (state_of (on_value self handler message s)) = self s.
Proof.
  unfold on_value, when, bind, emit, read, state_of. cbv beta iota.
  destruct (onMessage (self s)); [|reflexivity].
  rewrite _parseMessages_spec.
  pose proof (forEach_message_leaves_transport
                (parsed (substrings message)) s) as H.
  unfold state_of in H.
  destruct (forEach_message handler (parsed (substrings message)) s)
    as [[s2 tr2] r2]. cbn [fst snd] in *. exact H.
Qed.

Lemma reading_leaves_transport reads :
  undisturbed reads = true ->
  forall s, self (state_of (reading self put handler reads s)) = self s.
Proof.
  induction reads as [|[td r] rest IH]; intros U s.
  - cbn [reading]. unfold bind, read, ret, throw, state_of. cbv beta iota.
    destruct (connected (self s)); [destruct (reader (self s))|]; reflexivity.
  - unfold undisturbed in U. cbn [forallb torn_down] in U.
    apply andb_true_iff in U as [T U]. apply negb_true_iff in T. subst td.
    cbn [reading torn_down settled].
    unfold when, bind, read, ret, throw, emit, state_of. cbv beta iota.
    destruct (connected (self s)); [|reflexivity].
    destruct (reader (self s)); [|reflexivity].
    cbn [fst snd app]. destruct r as [message| |error]; try reflexivity.
    pose proof (on_value_leaves_transport message s) as H.
    unfold state_of in H.
    destruct (on_value self handler message s) as [[s1 tr1] [[]|e]];
      cbn [fst snd] in *; [|exact H].
    specialize (IH U s1). unfold state_of in IH.
    destruct (reading self put handler rest s1) as [[s2 tr2] r2].
    cbn [fst snd] in *. congruence.
Qed.

(** X23.  The loop does not tear the connection down: when the function
    in [onMessage] leaves the transport alone and no teardown runs
    while a read is pending, the transport is, when the loop has ended
    (end of stream, rejected read, exception of the handler), as it was
    when it started; [isConnected()] still answers as before. *)
Theorem startReading_leaves_transport (reads : list Read) (s : St) :
  undisturbed reads = true ->
  let out := _startReading self put handler reads s in
  self (state_of out) = self s /\
  isConnected (self (state_of out)) = isConnected (self s).
Proof.
  intros U out.
  assert (E : self (state_of out) = self s).
  { subst out. unfold _startReading, try_catch.
    pose proof (reading_leaves_transport reads U s) as H.
    unfold state_of in *.
    destruct (reading self put handler reads s) as [[s1 tr] [[]|e]];
      cbn [fst snd] in *; [exact H|].
    unfold when, bind, read, emit, ret.
    destruct (connected (self s1)); exact H. }
  split; [exact E | rewrite E; reflexivity].
Qed.

End AnyHandler.

Lemma forEach_notify messages (t : WMTPTransport) :
  forEach_message notify messages t =
  (t, map (fun v => Callback TransportOnMessage (Value v)) messages, Return tt).
Proof.
  induction messages as [|msg rest IH]; [reflexivity|].
  cbn [forEach_message map]. unfold bind.
  change (notify msg t)
    with (t, [Callback TransportOnMessage (Value msg)], @Return unit tt).
  cbv beta iota. rewrite IH. reflexivity.
Qed.

Lemma calls_notified messages :
  calls TransportOnMessage
        (map (fun v => Callback TransportOnMessage (Value v)) messages) =
  map Value messages.
Proof.
  induction messages as [|msg rest IH]; [reflexivity|].
  cbn [map calls Hook_beq]. rewrite IH. reflexivity.
Qed.

Lemma reading_disconnected reads (t : WMTPTransport) :
  connected t = false ->
  reading (fun t => t) (fun t _ => t) notify reads t = (t, [], Return tt).
Proof.
  intros C. destruct reads; cbn [reading]; unfold bind, read, ret;
    cbv beta iota; rewrite C; reflexivity.
Qed.

Lemma reading_delivers reads :
  forall t,
    onMessage t = true ->
    calls TransportOnMessage
          (trace_of (reading (fun t => t) (fun t _ => t) notify reads t)) =
    if connected t && match reader t with Some _ => true | None => false end
    then delivered (heard reads) else [].
Proof.
  induction reads as [|[td r] rest IH]; intros t M.
  - cbn [reading]. unfold bind, read, ret, throw, trace_of. cbv beta iota.
    destruct (connected t); [destruct (reader t)|]; reflexivity.
  - cbn [reading torn_down settled heard].
    unfold bind at 1. unfold read at 1. cbv beta iota.
    destruct (connected t) eqn:C; [|reflexivity].
    destruct (reader t) as [rd|] eqn:R; [|reflexivity].
    cbn [andb].
    destruct td.
    + (* torn down while the read was pending *)
      destruct t as [tr0 w0 r0 cn om oc od oe ch]. cbn in M, C, R. subst.
      destruct r as [message| |error].
      * run_loop.
        destruct od;
          cbn -[_parseMessages forEach_message reading delivered calls];
          rewrite _parseMessages_spec;
          cbn -[_parseMessages forEach_message reading delivered calls];
          rewrite forEach_notify;
          cbn -[_parseMessages forEach_message reading delivered calls];
          rewrite reading_disconnected by reflexivity;
          cbn -[_parseMessages forEach_message reading delivered calls];
          cbn [calls Hook_beq];
          rewrite !calls_app, calls_dropped, calls_notified;
          unfold delivered; cbn [flat_map calls app];
          rewrite !app_nil_r; reflexivity.
      * run_loop. destruct od; reflexivity.
      * run_loop. destruct od; reflexivity.
    + destruct r as [message| |error]; [|reflexivity|reflexivity].
      unfold when at 1. unfold bind at 1. unfold ret at 1. cbv beta iota.
      unfold bind at 1.
      assert (V : on_value (fun t => t) notify message t =
                  (t, Console LOG "[Transport] Received:" (DText message) ::
                      dropped (substrings message) ++
                      map (fun v => Callback TransportOnMessage (Value v))
                          (parsed (substrings message)),
                   Return tt)).
      { unfold on_value. run_loop. rewrite M.
        rewrite _parseMessages_spec, forEach_notify. reflexivity. }
      rewrite V. specialize (IH t M). rewrite C, R in IH. cbn [andb] in IH.
      unfold trace_of in *.
      destruct (reading (fun t => t) (fun t _ => t) notify rest t)
        as [[t2 tr2] r2]. cbn [fst snd] in *.
      cbn [app calls]. rewrite !calls_app, calls_dropped, calls_notified, IH.
      unfold delivered. cbn [flat_map app]. rewrite map_app. reflexivity.
Qed.

(** X24.  On a connected transport with a handler in [onMessage] the
    loop hands over, in order, the messages of every chunk it reads,
    each chunk framed on its own: a message that arrives in two chunks
    is not put together.  It reads up to the end of the stream or the
    first rejected read; the chunk of a read during which the connection
    was torn down is still handed over, and is the last. *)
Theorem standalone_delivers (reads : list Read) (t : WMTPTransport) (r : Handle) :
  connected t = true ->
  reader t = Some r ->
  onMessage t = true ->
  calls TransportOnMessage (trace_of (standalone reads t)) =
  delivered (heard reads).
Proof.
  intros C R M. unfold standalone, _startReading, try_catch.
  pose proof (reading_delivers reads t M) as H. rewrite C, R in H.
  cbn [andb] in H. unfold trace_of in *.
  destruct (reading (fun t => t) (fun t _ => t) notify reads t)
    as [[t1 tr1] [[]|e]]; cbn [fst snd] in *; [exact H|].
  run_loop. destruct (connected t1); cbn [fst snd];
    rewrite ?calls_app, ?app_nil_r, H; cbn; rewrite ?app_nil_r; reflexivity.
Qed.

Lemma startReading_leaves_transport_witness :
  let reads := [chunk (json "{'cmd':'HB'}"); rejected (HostError "reset");
                chunk (json "{'cmd':'PONG'}")] in
  let out := standalone reads live in
  state_of out = live /\
  isConnected (state_of out) = isConnected live.
Proof.
  apply (startReading_leaves_transport
           (fun t => t) (fun t _ => t) notify (fun _ _ => eq_refl)
           [chunk (json "{'cmd':'HB'}"); rejected (HostError "reset");
            chunk (json "{'cmd':'PONG'}")] live).
  reflexivity.
Defined.

Lemma standalone_delivers_witness :
  let reads := [chunk (json "{'cmd':'PONG'}{'cmd':");
                chunk (json "'HB'}");
                rejected (HostError "reset");
                chunk (json "{'cmd':'STATUS'}")] in
  calls TransportOnMessage (trace_of (standalone reads live)) =
    delivered (heard reads) /\
  delivered (heard reads) = [Value (JObject [(str "cmd", JString (str "PONG"))])].
Proof.
  split.
  - apply (standalone_delivers
             [chunk (json "{'cmd':'PONG'}{'cmd':");
              chunk (json "'HB'}");
              rejected (HostError "reset");
              chunk (json "{'cmd':'STATUS'}")] live 9); reflexivity.
  - vm_compute. reflexivity.
Defined.

End Reading.

(* ===================================================================== *)
(** * The page: the loop with the protocol as its handler *)
(* ===================================================================== *)

Section PageLoop.
Import JS Eff Protocol SessionSpec TransportSpec ReadLoop ReadSpec.

(** X25.  In the page, where the handler of the transport is
    [handleMessage], a chunk that is the JSON text [null] ends the read
    loop: parsing succeeds, the property access on [null] throws inside
    the loop, which logs a read error and returns.  Later reads are not
    taken, and client and transport stay as they were, connected. *)
Theorem null_message_ends_reading
    (c : Client) (r : Handle) (text : jsstring) (rest : list Read) :
  Transport.connected (wmtpTransport c) = true ->
  Transport.reader (wmtpTransport c) = Some r ->
  Transport.onMessage (wmtpTransport c) = true ->
  trim text = str "null" ->
  Page._startReading (chunk text :: rest) c =
  (c,
   [Console LOG "[Transport] Received:" (DText text);
    read_error (TypeError "Cannot read properties of null or undefined")],
   Return tt).
Proof.
  intros C R M T.
  assert (S : Transport._parseMessages text c = (c, [], Return [JNull])).
  { rewrite _parseMessages_spec. unfold Transport.substrings. rewrite T.
    vm_compute. reflexivity. }
  unfold Page._startReading, _startReading, try_catch.
  cbn [reading chunk torn_down settled].
  unfold on_value, when, bind, read, emit, ret, throw. cbv beta iota.
  rewrite C, R. cbv beta iota. rewrite M. cbv beta iota.
  rewrite S. cbn [forEach_message]. unfold bind.
  destruct c as [t p st]. cbn in C |- *. rewrite C. reflexivity.
Qed.

Lemma null_message_ends_reading_witness :
  let c := {| wmtpTransport := live; wmtpProtocol := signed_in;
              localStorage := [] |} in
  Page._startReading [chunk (str " null "); chunk (json "{'cmd':'PONG'}")] c =
  (c,
   [Console LOG "[Transport] Received:" (DText (str " null "));
    read_error (TypeError "Cannot read properties of null or undefined")],
   Return tt).
Proof.
  apply (null_message_ends_reading
           {| wmtpTransport := live; wmtpProtocol := signed_in;
              localStorage := [] |} 9 (str " null ")
           [chunk (json "{'cmd':'PONG'}")]); reflexivity.
Defined.

End PageLoop.

Section PageButtons.
Import JS Eff Protocol SessionSpec TransportSpec.

(** X26.  The logout button clears the saved session only when the
    request was sent: then the four session fields are reset and
    [loadSession] returns [null] afterwards.  When the send fails (not
    connected, or the write is rejected) the handler stops at [logout]
    with that error, [clearSession] is not called, and session and saved
    record are as they were. *)
Theorem logoutBtn_click_outcome (c : Client) (write_result : Completion unit) :
  let out := Page.logoutBtn_click write_result c in
  let sent :=
    match Transport.connected (wmtpTransport c), Transport.writer (wmtpTransport c) with
    | true, Some _ => write_result
    | _, _ => Throw (Error "Not connected")
    end in
  match sent with
  | Return _ =>
      result_of out = Return tt /\
      sessionToken (wmtpProtocol (state_of out)) = JNull /\
      authenticated (wmtpProtocol (state_of out)) = JBool false /\
      email (wmtpProtocol (state_of out)) = JNull /\
      username (wmtpProtocol (state_of out)) = JNull /\
      result_of (loadSession (state_of out)) = Return JNull
  | Throw e =>
      result_of out = Throw e /\
      state_of out = c /\
      result_of (loadSession (state_of out)) = result_of (loadSession c)
  end.
Proof.
  intros out sent. subst out sent.
  unfold Page.logoutBtn_click, logout, clearSession, loadSession, send,
         this, this_transport, storage, zoom, Transport.send,
         when, bind, read, modify, emit, ret, throw, settle,
         state_of, trace_of, result_of.
  cbv beta iota.
  destruct c as [t p st].
  cbn -[JSON_stringify TextEncoder_encode JSON_parse getItem removeItem].
  destruct (Transport.connected t);
    [destruct (Transport.writer t) as [w|];
       [destruct write_result as [[]|e]|]|];
    cbn -[JSON_stringify TextEncoder_encode JSON_parse getItem removeItem];
    repeat split.
  rewrite getItem_removeItem_same. reflexivity.
Qed.

End PageButtons.

(* ===================================================================== *)
(** * From sign-in to the saved session *)
(* ===================================================================== *)

Section SignIn.
Import JS Eff Protocol SessionSpec PageSpec.

Ltac run_page :=
  unfold Page.onMessage, Page.handleMessage, Page.installed, Page.recorded,
         field;
  rewrite ?get_object;
  unfold saveSession, this, storage, zoom, when, bind, read, modify, emit,
         ret, throw;
  cbv beta iota.

Ltac page_cases :=
  repeat (cbn -[prop is_string JSON_stringify JSON_parse session_record
                setItem getItem truthy];
          match goal with
          | |- context [if ?b then _ else _] => destruct b eqn:?
          end);
  cbn -[prop is_string JSON_stringify JSON_parse session_record
        setItem getItem truthy].

(** [handleMessage] with its callbacks called is [handleMessage] with
    its callbacks recorded, when the callbacks do nothing else. *)
Lemma handleMessage_in_page (message : JSValue) (c : Client) :
  Page.handleMessage Page.recorded message c = this (handleMessage message) c.
Proof.
  destruct c as [t p st].
  destruct message as [| |b|n|x|items|props];
    unfold handleMessage; run_page; cbn [get];
    page_cases; reflexivity.
Qed.

(** X27.  In the page, where [onAuthSuccess] calls [saveSession], the
    session an [AUTH_OK] leaves is saved while the message is handled
    and can be read back: when the message carries a non-empty string
    [session_token] and its [email] and [username] are strings or
    [null], handling it writes the store once, under [wmtp_session],
    and [loadSession] then returns [{token, email, username}] with the
    values of the message.  The record has no [authenticated] field. *)
Theorem auth_ok_session_is_restorable
    (c : Client) (props : list (jsstring * JSValue)) :
  onAuthSuccess (wmtpProtocol c) = true ->
  is_string (prop props "cmd") "AUTH_OK" = true ->
  token_present (prop props "session_token") = true ->
  storable (prop props "email") = true ->
  storable (prop props "username") = true ->
  let handled := Page.onMessage (JObject props) c in
  let record := JObject [(str "token", prop props "session_token");
                         (str "email", prop props "email");
                         (str "username", prop props "username")] in
  result_of handled = Return tt /\
  (exists text, stores (trace_of handled) = [(SESSION_KEY, text)] /\
                JSON_parse text = Some record) /\
  calls OnAuthSuccess (trace_of handled) = [Value (JObject props)] /\
  result_of (loadSession (state_of handled)) = Return record /\
  get record "authenticated" = Some JUndefined.
Proof.
  intros I A Ht He Hu handled record.
  destruct c as [t p st]. cbn [wmtpProtocol] in I.
  set (p' := set_username (prop props "username")
               (set_email (prop props "email")
                  (set_authenticated (JBool true)
                     (set_sessionToken (prop props "session_token") p)))).
  destruct (parse_session_record p' (token_present_storable _ Ht) He Hu)
    as (text & Hs & Hp).
  change (session_record p') with record in Hs, Hp.
  subst handled. unfold loadSession, state_of, trace_of, result_of.
  run_page.
  apply is_string_true in A. rewrite A.
  change (is_string (JString (str "AUTH_OK")) "HB") with false.
  change (is_string (JString (str "AUTH_OK")) "SESSION_INIT") with false.
  change (is_string (JString (str "AUTH_OK")) "AUTH_OK") with true.
  cbv beta iota.
  cbn -[prop is_string JSON_stringify JSON_parse session_record
        setItem getItem truthy].
  rewrite I. cbv beta iota.
  cbn [wmtpProtocol wmtpTransport localStorage]. fold p'.
  change (sessionToken p') with (prop props "session_token").
  rewrite (token_present_truthy _ Ht).
  change (session_record p') with record. rewrite Hs.
  cbn [onError onResponse set_username set_email set_authenticated
       set_sessionToken] in p'.
  page_cases.
  all: cbn [wmtpProtocol wmtpTransport localStorage fst snd app stores calls
            Hook_beq].
  all: rewrite ?getItem_setItem, ?Hp.
  all: split; [reflexivity|];
       split; [exists (LBRACE :: text); split; [reflexivity | exact Hp]|];
       repeat split.
Qed.

Lemma auth_ok_session_is_restorable_witness :
  let props := [(str "status", JString (str "OK"));
                (str "cmd", JString (str "AUTH_OK"));
                (str "session_token", JString (str "T"));
                (str "email", JString (str "user@example.com"));
                (str "username", JNull)] in
  let c := {| wmtpTransport := Transport.constructor;
              wmtpProtocol := signed_in;
              localStorage := [] |} in
  let handled := Page.onMessage (JObject props) c in
  let record := JObject [(str "token", JString (str "T"));
                         (str "email", JString (str "user@example.com"));
                         (str "username", JNull)] in
  result_of handled = Return tt /\
  (exists text, stores (trace_of handled) = [(SESSION_KEY, text)] /\
                JSON_parse text = Some record) /\
  calls OnAuthSuccess (trace_of handled) = [Value (JObject props)] /\
  result_of (loadSession (state_of handled)) = Return record /\
  get record "authenticated" = Some JUndefined.
Proof.
  apply (auth_ok_session_is_restorable
           {| wmtpTransport := Transport.constructor;
              wmtpProtocol := signed_in;
              localStorage := [] |}
           [(str "status", JString (str "OK"));
            (str "cmd", JString (str "AUTH_OK"));
            (str "session_token", JString (str "T"));
            (str "email", JString (str "user@example.com"));
            (str "username", JNull)]); reflexivity.
Defined.

End SignIn.
